(** * wander-albay: itinerary creation and verification e-mail

    A shallow embedding of the two source files of the repository:

    - [src/components/CreateItineraryModal.tsx]: the preference scorer
      ([scoreSpot]), the top-8 selector ([handleAutoSelect]), the selection
      toggle ([toggleSpot]) and the creation handler
      ([handleCreateItinerary]), the two fetches, the cards it renders, and
      the map component ([ItineraryMap]) that follows it in the source;
    - [supabase/functions/send-verification-email/index.ts]: the request
      handler of the e-mail function ([handler]).

    Modelling conventions.
    - The modal is read twice.  [Modal] takes a string to be a [string]
      whose characters are code units below 256, on which [toLowerCase] and
      [trim] follow ECMAScript, and a number to be an exact rational [Q].
      [ModalFull] keeps the itinerary name as its UTF-16 code units, with
      every white-space code point that [trim] strips, and rounds to
      binary64 the one score operation that can round, the addition of half
      the rating.  The two agree on names below U+0100 and on scores that
      need no rounding ([rejects_like_Modal], [scoreSpot_like_Modal]).
    - [Set<string>] component state is a [gset string]; the array built from
      a [Set] by spreading keeps insertion order and is a [list].
    - React state is a record threaded through every handler; what a handler
      does to the outside world (notifications, the insert, the callbacks,
      the log, the mail provider) is the list of effects it returns.
    - [Math.random()] reads a generator: the n-th call returns the n-th
      draw.  The store, the signature check, [JSON.parse] and the mail
      provider are supplied to the handlers as functions. *)

From Stdlib Require Import Ascii String QArith Qpower Qround Qabs Lqa Sorted Permutation.
From stdpp Require Import gmap strings list.

Open Scope Q_scope.
Open Scope string_scope.

(** ** JavaScript strings *)

Module JS.

(** [String.prototype.toLowerCase] on code units below 256: the letters
    A-Z and the Latin-1 capitals U+00C0-U+00DE (the sign U+00D7 apart)
    move up by 32. *)
Definition lowerChar (c : ascii) : ascii :=
  let n := Ascii.N_of_ascii c in
  if ((65 <=? n) && (n <=? 90))%N then Ascii.ascii_of_N (n + 32)
  else if ((192 <=? n) && (n <=? 222) && negb (n =? 215))%N
       then Ascii.ascii_of_N (n + 32)
  else c.

Fixpoint toLowerCase (s : string) : string :=
  match s with
  | EmptyString => EmptyString
  | String c r => String (lowerChar c) (toLowerCase r)
  end.

Fixpoint startsWith (s p : string) {struct p} : bool :=
  match p, s with
  | EmptyString, _ => true
  | String _ _, EmptyString => false
  | String a p', String b s' => Ascii.eqb a b && startsWith s' p'
  end.

(** [s.includes(p)]: [p] occurs in [s] as a substring. *)
Fixpoint includes (s p : string) : bool :=
  startsWith s p ||
  match s with
  | EmptyString => false
  | String _ r => includes r p
  end.

(** WhiteSpace and LineTerminator code units below 256: TAB, LF, VT, FF,
    CR, SPACE and NO-BREAK SPACE.  The ones above 255 are in
    [Utf16.isWhiteSpace]. *)
Definition isWhiteSpace (c : ascii) : bool :=
  let n := Ascii.N_of_ascii c in
  ((9 <=? n) && (n <=? 13) || (n =? 32) || (n =? 160))%N.

Fixpoint trimStart (s : string) : string :=
  match s with
  | EmptyString => EmptyString
  | String c r => if isWhiteSpace c then trimStart r else s
  end.

Fixpoint trimEnd (s : string) : string :=
  match s with
  | EmptyString => EmptyString
  | String c r =>
      match trimEnd r with
      | EmptyString => if isWhiteSpace c then EmptyString else String c EmptyString
      | r' => String c r'
      end
  end.

Definition trim (s : string) : string := trimEnd (trimStart s).

(** Truthiness of a string: the empty string is falsy. *)
Definition truthy (s : string) : bool := negb (String.eqb s "").

(** Truthiness of [string | null]. *)
Definition truthy_opt (s : option string) : bool :=
  match s with
  | Some s => truthy s
  | None => false
  end.

(** [Array.prototype.includes] on an array of strings. *)
Definition arrayIncludes (l : list string) (x : string) : bool :=
  existsb (String.eqb x) l.

(** [new Set(xs)] adds the elements in order, [add] of a present element
    does nothing; [[...set]] lists them in insertion order. *)
Definition setAdd (acc : list string) (x : string) : list string :=
  if arrayIncludes acc x then acc else (acc ++ [x])%list.

Definition spreadSet (xs : list string) : list string :=
  fold_left setAdd xs [].

End JS.

(** ** CreateItineraryModal.tsx *)

Module Modal.

Record TouristSpot := {
  id : string;
  name : string;
  description : option string;
  location : string;
  municipality : option string;
  category : list string;
  image_url : option string;
  latitude : option Q;
  longitude : option Q;
  rating : option Q;
  budget_level : option string;
  scenery_type : list string;
  spot_type : list string;
  is_hidden_gem : bool
}.

(** [userPreferences] is untyped in the source; these are the four fields
    [scoreSpot] reads, each of which may be missing. *)
Record UserPreferences := {
  preferredActivities : option (list string);
  budgetRange : option string;
  sceneryType : option (list string);
  hiddenGems : option bool
}.

(** The source of [Math.random()]: call number [next] returns
    [draws next]. *)
Record Rng := { draws : nat -> Q; next : nat }.

Definition Math_random (g : Rng) : Q * Rng :=
  (draws g (next g), {| draws := draws g; next := S (next g) |}).

(** The component's state ([useState] cells). *)
Record State := {
  itineraryName : string;
  loading : bool;
  spots : list TouristSpot;
  selectedSpots : gset string;
  fetchingSpots : bool;
  userPreferences : option UserPreferences
}.

(** *** scoreSpot *)

(** The [matches] of the category block: the preferred activities that
    some category tag of the spot contains, both lower-cased. *)
Definition activityMatches (acts : list string) (spot : TouristSpot) : list string :=
  List.filter
    (fun activity =>
       existsb (fun cat => JS.includes (JS.toLowerCase cat) (JS.toLowerCase activity))
               (category spot))
    acts.

(** The [matches] of the scenery block. *)
Definition sceneryMatches (wanted : list string) (spot : TouristSpot) : list string :=
  List.filter (fun scenery => JS.arrayIncludes wanted scenery) (scenery_type spot).

Definition ofLength {A} (l : list A) : Q := inject_Z (Z.of_nat (length l)).

(** [scoreSpot]: the random draw when there are no preferences; otherwise
    [score] starts at 0 and each block adds to it when its guard holds.
    An array is truthy, a string is truthy when it is not empty, a number
    when it is not zero.  The additions are exact here; the rating block
    rounded to binary64 is in [ModalFull.scoreSpot]. *)
Definition scoreSpot (prefs : option UserPreferences) (spot : TouristSpot)
           (g : Rng) : Q * Rng :=
  match prefs with
  | None => Math_random g
  | Some p =>
      let score := 0 in
      let score :=
        match preferredActivities p with
        | Some acts => score + ofLength (activityMatches acts spot) * 3
        | None => score
        end in
      let score :=
        match budgetRange p, budget_level spot with
        | Some range, Some level =>
            if JS.truthy range && JS.truthy level then
              if String.eqb (JS.toLowerCase level) (JS.toLowerCase range)
              then score + 2 else score
            else score
        | _, _ => score
        end in
      let score :=
        match sceneryType p with
        | Some wanted => score + ofLength (sceneryMatches wanted spot) * 2
        | None => score
        end in
      let score :=
        if default false (hiddenGems p) && is_hidden_gem spot
        then score + 2 else score in
      let score :=
        match rating spot with
        | Some r => if Qeq_bool r 0 then score else score + r / 2
        | None => score
        end in
      (score, g)
  end.

(** What each block contributes, for stating the claims about one block. *)
Definition activityScore (p : UserPreferences) (spot : TouristSpot) : Q :=
  match preferredActivities p with
  | Some acts => ofLength (activityMatches acts spot) * 3
  | None => 0
  end.

Definition budgetScore (p : UserPreferences) (spot : TouristSpot) : Q :=
  match budgetRange p, budget_level spot with
  | Some range, Some level =>
      if JS.truthy range && JS.truthy level
         && String.eqb (JS.toLowerCase level) (JS.toLowerCase range)
      then 2 else 0
  | _, _ => 0
  end.

Definition sceneryScore (p : UserPreferences) (spot : TouristSpot) : Q :=
  match sceneryType p with
  | Some wanted => ofLength (sceneryMatches wanted spot) * 2
  | None => 0
  end.

Definition hiddenGemScore (p : UserPreferences) (spot : TouristSpot) : Q :=
  if default false (hiddenGems p) && is_hidden_gem spot then 2 else 0.

Definition ratingScore (spot : TouristSpot) : Q :=
  match rating spot with
  | Some r => if Qeq_bool r 0 then 0 else r / 2
  | None => 0
  end.

(** *** State setters and effects *)

Definition setItineraryName (v : string) (st : State) : State :=
  {| itineraryName := v; loading := loading st; spots := spots st;
     selectedSpots := selectedSpots st; fetchingSpots := fetchingSpots st;
     userPreferences := userPreferences st |}.

Definition setLoading (v : bool) (st : State) : State :=
  {| itineraryName := itineraryName st; loading := v; spots := spots st;
     selectedSpots := selectedSpots st; fetchingSpots := fetchingSpots st;
     userPreferences := userPreferences st |}.

Definition setSelectedSpots (v : gset string) (st : State) : State :=
  {| itineraryName := itineraryName st; loading := loading st; spots := spots st;
     selectedSpots := v; fetchingSpots := fetchingSpots st;
     userPreferences := userPreferences st |}.

(** The row handed to [supabase.from("itineraries").insert]. *)
Record ItineraryRow := {
  user_id : string;
  row_name : string;
  row_spots : list TouristSpot;
  selected_categories : list string
}.

(** What a handler does besides updating the state: the notifications,
    the one network call and the two callbacks of the props. *)
Inductive Effect :=
| ToastError (msg : string)
| ToastSuccess (msg : string)
| Insert (row : ItineraryRow)
| OnOpenChange (open : bool)
| OnSuccess.

(** *** handleAutoSelect *)

(** An element of the array being sorted: [{ spot, score }]. *)
Record Scored := { spot : TouristSpot; score : Q }.

(** [spots.map((spot) => ({ spot, score: scoreSpot(spot) }))]: the calls
    run left to right and share the generator. *)
Fixpoint scoreAll (prefs : option UserPreferences) (l : list TouristSpot)
         (g : Rng) : list Scored * Rng :=
  match l with
  | [] => ([], g)
  | s :: rest =>
      let (sc, g1) := scoreSpot prefs s g in
      let (scored, g2) := scoreAll prefs rest g1 in
      ({| spot := s; score := sc |} :: scored, g2)
  end.

(** The comparator [(a, b) => b.score - a.score]. *)
Definition compareFn (a b : Scored) : Q := score b - score a.

(** [Array.prototype.sort] is a stable sort: [a] is placed after [b]
    exactly when [compareFn a b > 0], and elements that compare equal
    keep their order.  Insertion from the right is such a sort. *)
Fixpoint sortInsert (x : Scored) (l : list Scored) : list Scored :=
  match l with
  | [] => [x]
  | y :: r =>
      match (compareFn x y ?= 0)%Q with
      | Gt => y :: sortInsert x r
      | _ => x :: y :: r
      end
  end.

Fixpoint sort (l : list Scored) : list Scored :=
  match l with
  | [] => []
  | x :: r => sortInsert x (sort r)
  end.

(** The array [scoredSpots] of identifiers. *)
Definition scoredSpots (st : State) (g : Rng) : list string * Rng :=
  let (scored, g') := scoreAll (userPreferences st) (spots st) g in
  (map (fun item => id (spot item)) (take 8 (sort scored)), g').

Definition handleAutoSelect (st : State) (g : Rng) : State * Rng * list Effect :=
  let (ids, g') := scoredSpots st g in
  (setSelectedSpots (list_to_set ids) st, g',
   [ToastSuccess "Auto-selected top 8 recommended spots based on your preferences!"]).

(** *** toggleSpot *)

Definition toggleSpot (spotId : string) (st : State) : State :=
  let newSelected := selectedSpots st in
  let newSelected :=
    if bool_decide (spotId ∈ newSelected)
    then newSelected ∖ {[ spotId ]}
    else newSelected ∪ {[ spotId ]} in
  setSelectedSpots newSelected st.

(** *** handleCreateItinerary *)

(** [insertFails row] tells whether the store answers the insert of [row]
    with an error. *)
Definition handleCreateItinerary (userId : string)
           (insertFails : ItineraryRow -> bool) (st : State) : State * list Effect :=
  if negb (JS.truthy (JS.trim (itineraryName st))) then
    (st, [ToastError "Please enter an itinerary name"])
  else if (size (selectedSpots st) =? 0)%nat then
    (st, [ToastError "Please select at least one spot"])
  else
    let st := setLoading true st in
    let selectedSpotData :=
      List.filter (fun s => bool_decide (id s ∈ selectedSpots st)) (spots st) in
    let row :=
      {| user_id := userId;
         row_name := itineraryName st;
         row_spots := selectedSpotData;
         selected_categories := JS.spreadSet (flat_map category selectedSpotData) |} in
    let error := insertFails row in
    let st := setLoading false st in
    if error then
      (st, [Insert row; ToastError "Failed to create itinerary"])
    else
      let st := setItineraryName "" st in
      let st := setSelectedSpots ∅ st in
      (st, [Insert row; ToastSuccess "Itinerary created successfully!";
            OnOpenChange false; OnSuccess]).

End Modal.

(** ** send-verification-email/index.ts *)

Module Email.

Definition Headers := list (string * string).

Record Request := {
  method : string;
  req_headers : Headers;
  body : string
}.

(** The two environment variables the function reads; either may be
    unset. *)
Record Env := {
  SEND_VERIFICATION_EMAIL_HOOK_SECRET : option string;
  SUPABASE_URL : option string
}.

Definition hookSecret (env : Env) : option string :=
  SEND_VERIFICATION_EMAIL_HOOK_SECRET env.

(** The shape the parsed payload is destructured into. *)
Record User := { email : string }.

Record EmailData := {
  token : string;
  token_hash : string;
  redirect_to : string;
  email_action_type : string
}.

Record HookPayload := { user : User; email_data : EmailData }.

(** The argument of [resend.emails.send]. *)
Record Mail := {
  from : string;
  to : list string;
  subject : string;
  html : string
}.

Definition corsHeaders : Headers :=
  [("Access-Control-Allow-Origin", "*");
   ("Access-Control-Allow-Headers",
    "authorization, x-client-info, apikey, content-type")].

(** A double quote and a line feed, and a text given line by line.  The
    template is only ever concatenated; its characters beyond ASCII are
    kept as the bytes of the source file. *)
Definition dq : string := String "034" EmptyString.
Definition nl : string := String "010" EmptyString.
Definition lines (l : list string) : string := String.concat nl l.

(** An absent value interpolated into a template literal. *)
Definition interpolate (v : option string) : string := default "undefined" v.

Definition verificationLink (supabaseUrl : option string) (d : EmailData) : string :=
  interpolate supabaseUrl ++ "/auth/v1/verify?token=" ++ token_hash d
    ++ "&type=" ++ email_action_type d ++ "&redirect_to=" ++ redirect_to d.

(** The template up to the link. *)
Definition htmlHead : string :=
  lines [
    EmptyString;
    "      <!DOCTYPE html>";
    "      <html>";
    "        <head>";
    "          <meta charset=" ++ dq ++ "utf-8" ++ dq ++ ">";
    "          <meta name=" ++ dq ++ "viewport" ++ dq ++ " content=" ++ dq ++ "width=device-width, initial-scale=1.0" ++ dq ++ ">";
    "          <style>";
    "            body { font-family: -apple-system, BlinkMacSystemFont, 'Segoe UI', Roboto, 'Helvetica Neue', Arial, sans-serif; margin: 0; padding: 0; background-color: #f6f9fc; }";
    "            .container { max-width: 600px; margin: 0 auto; background-color: #ffffff; }";
    "            .header { background: linear-gradient(135deg, #667eea 0%, #764ba2 100%); padding: 40px 20px; text-align: center; }";
    "            .logo { width: 60px; height: 60px; background-color: white; border-radius: 50%; margin: 0 auto 20px; display: flex; align-items: center; justify-content: center; font-size: 30px; }";
    "            .header-title { color: white; font-size: 28px; font-weight: bold; margin: 0; }";
    "            .content { padding: 40px 30px; }";
    "            .welcome { font-size: 20px; font-weight: 600; color: #1a1a1a; margin-bottom: 20px; }";
    "            .message { font-size: 16px; color: #4a5568; line-height: 1.6; margin-bottom: 30px; }";
    "            .button { display: inline-block; background: linear-gradient(135deg, #667eea 0%, #764ba2 100%); color: white; text-decoration: none; padding: 14px 40px; border-radius: 8px; font-weight: 600; font-size: 16px; transition: transform 0.2s; }";
    "            .button:hover { transform: translateY(-2px); }";
    "            .code-section { background-color: #f7fafc; border: 1px solid #e2e8f0; border-radius: 8px; padding: 20px; margin: 30px 0; text-align: center; }";
    "            .code { font-family: 'Courier New', monospace; font-size: 24px; font-weight: bold; color: #2d3748; letter-spacing: 4px; }";
    "            .footer { padding: 30px; text-align: center; color: #718096; font-size: 14px; border-top: 1px solid #e2e8f0; }";
    "            .divider { text-align: center; margin: 30px 0; color: #cbd5e0; }";
    "          </style>";
    "        </head>";
    "        <body>";
    "          <div class=" ++ dq ++ "container" ++ dq ++ ">";
    "            <div class=" ++ dq ++ "header" ++ dq ++ ">";
    "              <div class=" ++ dq ++ "logo" ++ dq ++ ">🌍</div>";
    "              <h1 class=" ++ dq ++ "header-title" ++ dq ++ ">Wanderer</h1>";
    "            </div>";
    "            ";
    "            <div class=" ++ dq ++ "content" ++ dq ++ ">";
    "              <h2 class=" ++ dq ++ "welcome" ++ dq ++ ">Welcome to Wanderer!</h2>";
    "              <p class=" ++ dq ++ "message" ++ dq ++ ">";
    "                Thank you for signing up! We're excited to have you join our community of explorers. ";
    "                To get started, please verify your email address by clicking the button below.";
    "              </p>";
    "              ";
    "              <div style=" ++ dq ++ "text-align: center; margin: 30px 0;" ++ dq ++ ">";
    "                <a href=" ++ dq
  ].

(** The template between the link and the code. *)
Definition htmlMiddle : string :=
  lines [
    dq ++ " class=" ++ dq ++ "button" ++ dq ++ ">Verify Email Address</a>";
    "              </div>";
    "              ";
    "              <div class=" ++ dq ++ "divider" ++ dq ++ ">───── OR ─────</div>";
    "              ";
    "              <div class=" ++ dq ++ "code-section" ++ dq ++ ">";
    "                <p style=" ++ dq ++ "margin: 0 0 10px 0; color: #4a5568; font-size: 14px;" ++ dq ++ ">Enter this code:</p>";
    "                <div class=" ++ dq ++ "code" ++ dq ++ ">"
  ].

(** The template after the code. *)
Definition htmlTail : string :=
  lines [
    "</div>";
    "              </div>";
    "              ";
    "              <p class=" ++ dq ++ "message" ++ dq ++ " style=" ++ dq ++ "font-size: 14px; margin-top: 30px;" ++ dq ++ ">";
    "                If you didn't create an account with Wanderer, you can safely ignore this email.";
    "              </p>";
    "            </div>";
    "            ";
    "            <div class=" ++ dq ++ "footer" ++ dq ++ ">";
    "              <p>© 2025 Wanderer. All rights reserved.</p>";
    "              <p style=" ++ dq ++ "margin-top: 10px;" ++ dq ++ ">Your adventure companion for exploring the world.</p>";
    "            </div>";
    "          </div>";
    "        </body>";
    "      </html>";
    "    "
  ].

Definition emailHtml (link code : string) : string :=
  htmlHead ++ link ++ htmlMiddle ++ code ++ htmlTail.

Section Handler.

(** The value [resend.emails.send] resolves to, and a verifier built by
    [new Webhook(secret)]. *)
Variable SendResult : Type.
Variable Webhook : Type.

(** The collaborators.  [inl message] stands for a thrown error with
    that message; [Webhook_verify] answers [Some err] when it throws
    [err]. *)
Variable Webhook_new : string -> string + Webhook.
Variable Webhook_verify : Webhook -> string -> Headers -> option string.
Variable JSON_parse : string -> string + HookPayload.
Variable resend_emails_send : Mail -> string + SendResult.

(** The body of a response: none, [JSON.stringify(emailResponse)] or
    [JSON.stringify({ error: message })]. *)
Inductive Body :=
| BodyNull
| BodySendResult (emailResponse : SendResult)
| BodyError (message : string).

Record Response := {
  status : nat;
  headers : Headers;
  resp_body : Body
}.

Inductive Effect :=
| ConsoleError (label detail : string)
| ConsoleLog (label : string) (emailResponse : SendResult)
| Send (mail : Mail).

Definition jsonHeaders : Headers :=
  ("Content-Type", "application/json") :: corsHeaders.

(** The [catch] of the handler. *)
Definition failed (message : string) (logged : list Effect) : Response * list Effect :=
  ({| status := 500; headers := jsonHeaders; resp_body := BodyError message |},
   (logged ++ [ConsoleError "Error sending verification email:" message])%list).

(** The signature block: what it logs, or the error that escapes it
    (only the constructor is outside the inner [try]). *)
Definition verifySignature (env : Env) (payload : string) (hs : Headers)
  : string + list Effect :=
  if JS.truthy_opt (hookSecret env) then
    match Webhook_new (default "" (hookSecret env)) with
    | inl message => inl message
    | inr wh =>
        match Webhook_verify wh payload hs with
        | Some err => inr [ConsoleError "Webhook verification failed:" err]
        | None => inr []
        end
    end
  else inr [].

Definition handler (env : Env) (req : Request) : Response * list Effect :=
  if String.eqb (method req) "OPTIONS" then
    ({| status := 200; headers := corsHeaders; resp_body := BodyNull |}, [])
  else
    let payload := body req in
    let hs := req_headers req in
    match verifySignature env payload hs with
    | inl message => failed message []
    | inr logged =>
        match JSON_parse payload with
        | inl message => failed message logged
        | inr p =>
            let d := email_data p in
            let link := verificationLink (SUPABASE_URL env) d in
            let mail :=
              {| from := "Wanderer <onboarding@resend.dev>";
                 to := [email (user p)];
                 subject := "Verify your Wanderer account";
                 html := emailHtml link (token d) |} in
            match resend_emails_send mail with
            | inl message => failed message (logged ++ [Send mail])%list
            | inr emailResponse =>
                ({| status := 200; headers := jsonHeaders;
                    resp_body := BodySendResult emailResponse |},
                 (logged ++ [Send mail;
                             ConsoleLog "Verification email sent successfully:"
                                        emailResponse])%list)
            end
        end
    end.

End Handler.

Arguments BodyNull {SendResult}.
Arguments BodySendResult {SendResult} emailResponse.
Arguments BodyError {SendResult} message.
Arguments ConsoleError {SendResult} label detail.
Arguments ConsoleLog {SendResult} label emailResponse.
Arguments Send {SendResult} mail.
Arguments failed {SendResult} message logged.
Arguments verifySignature {SendResult Webhook} Webhook_new Webhook_verify env payload hs.
Arguments handler {SendResult Webhook} Webhook_new Webhook_verify JSON_parse
          resend_emails_send env req.

(** The mail the handler builds for a parsed payload. *)
Definition mailFor (env : Env) (p : HookPayload) : Mail :=
  {| from := "Wanderer <onboarding@resend.dev>";
     to := [email (user p)];
     subject := "Verify your Wanderer account";
     html := emailHtml (verificationLink (SUPABASE_URL env) (email_data p))
                       (token (email_data p)) |}.

End Email.

(** ** Notions used in the statements *)

Module Notions.

(** The hit count as the specification words it: the pairs of a preferred
    activity and a category tag of the spot such that the tag contains the
    activity, compared without case. *)
Definition hitCount (acts : list string) (spot : Modal.TouristSpot) : nat :=
  length
    (List.filter
       (fun pair : string * string =>
          JS.includes (JS.toLowerCase (snd pair)) (JS.toLowerCase (fst pair)))
       (list_prod acts (Modal.category spot))).

(** Descending order of score, and the elements of an array that have a
    given score, in the order of the array. *)
Definition descending (a b : Modal.Scored) : Prop := Modal.score b <= Modal.score a.

Definition withScore (q : Q) (l : list Modal.Scored) : list Modal.Scored :=
  List.filter (fun a => Qeq_bool (Modal.score a) q) l.

(** The row that [handleCreateItinerary] builds from a state. *)
Definition createdRow (userId : string) (st : Modal.State) : Modal.ItineraryRow :=
  let selectedSpotData :=
    List.filter (fun s => bool_decide (Modal.id s ∈ Modal.selectedSpots st))
                (Modal.spots st) in
  {| Modal.user_id := userId;
     Modal.row_name := Modal.itineraryName st;
     Modal.row_spots := selectedSpotData;
     Modal.selected_categories :=
       JS.spreadSet (flat_map Modal.category selectedSpotData) |}.

(** A name made of white space only (the empty name included). *)
Definition blank (s : string) : Prop :=
  Forall (fun c => JS.isWhiteSpace c = true) (list_ascii_of_string s).

(** A preferred activity is matched by a spot when the lower-cased
    activity occurs inside one of the spot's lower-cased category tags. *)
Definition matchesCategory (activity : string) (spot : Modal.TouristSpot) : Prop :=
  exists cat pre post,
    In cat (Modal.category spot) /\
    JS.toLowerCase cat = pre ++ JS.toLowerCase activity ++ post.

End Notions.

(** ** Sample data *)

Module Sample.
Import Modal.

Definition spotOf (i : string) (cats : list string) (r : option Q) : TouristSpot :=
  {| id := i; name := i; description := None; location := "Albay";
     municipality := None; category := cats; image_url := None;
     latitude := None; longitude := None; rating := r;
     budget_level := None; scenery_type := []; spot_type := [];
     is_hidden_gem := false |}.

Definition noPreferences : UserPreferences :=
  {| preferredActivities := None; budgetRange := None;
     sceneryType := None; hiddenGems := None |}.

Definition withActivities (acts : list string) (p : UserPreferences) : UserPreferences :=
  {| preferredActivities := Some acts; budgetRange := budgetRange p;
     sceneryType := sceneryType p; hiddenGems := hiddenGems p |}.

(** A generator whose every draw is one half. *)
Definition halves : Rng := {| draws := fun _ => 1 # 2; next := 0 |}.

(** The end-to-end example of the specification. *)
Definition hiker : UserPreferences :=
  {| preferredActivities := Some ["hiking"]; budgetRange := Some "low";
     sceneryType := None; hiddenGems := Some true |}.

Definition spotA : TouristSpot :=
  {| id := "A"; name := "A"; description := None; location := "Albay";
     municipality := None; category := ["Hiking"]; image_url := None;
     latitude := None; longitude := None; rating := Some 4;
     budget_level := Some "low"; scenery_type := []; spot_type := [];
     is_hidden_gem := true |}.

Definition stateOf (n : string) (l : list TouristSpot) (sel : gset string)
           (p : option UserPreferences) : State :=
  {| itineraryName := n; loading := false; spots := l; selectedSpots := sel;
     fetchingSpots := false; userPreferences := p |}.

End Sample.

Module EmailSample.
Import Email.

Definition env : Env :=
  {| SEND_VERIFICATION_EMAIL_HOOK_SECRET := Some "whsec_c2VjcmV0";
     SUPABASE_URL := Some "https://albay.supabase.co" |}.

Definition payload : HookPayload :=
  {| user := {| email := "ana@example.com" |};
     email_data := {| token := "482913"; token_hash := "9f3ab2";
                      redirect_to := "https://wander.example/home";
                      email_action_type := "signup" |} |}.

Definition post : Request :=
  {| method := "POST"; req_headers := [("webhook-id", "msg_1")]; body := "{}" |}.

Definition preflight : Request :=
  {| method := "OPTIONS"; req_headers := []; body := "" |}.

(** Collaborators for the samples: a verifier is built from any secret,
    every body parses to [payload], the provider accepts every mail. *)
Definition newWebhook (secret : string) : string + unit := inr tt.
Definition rejects (wh : unit) (p : string) (hs : Headers) : option string :=
  Some "No matching signature found".
Definition accepts (wh : unit) (p : string) (hs : Headers) : option string := None.
Definition parse (p : string) : string + HookPayload := inr payload.
Definition deliver (m : Mail) : string + string := inr "re_123".

End EmailSample.

(** ** CreateItineraryModal.tsx: fetching and rendering *)

Module ModalView.
Import Modal.

Definition setSpots (v : list TouristSpot) (st : State) : State :=
  {| itineraryName := itineraryName st; loading := loading st; spots := v;
     selectedSpots := selectedSpots st; fetchingSpots := fetchingSpots st;
     userPreferences := userPreferences st |}.

Definition setFetchingSpots (v : bool) (st : State) : State :=
  {| itineraryName := itineraryName st; loading := loading st; spots := spots st;
     selectedSpots := selectedSpots st; fetchingSpots := v;
     userPreferences := userPreferences st |}.

Definition setUserPreferences (v : option UserPreferences) (st : State) : State :=
  {| itineraryName := itineraryName st; loading := loading st; spots := spots st;
     selectedSpots := selectedSpots st; fetchingSpots := fetchingSpots st;
     userPreferences := v |}.

(** The two columns selected from the [profiles] row; each may be null. *)
Record Profile := {
  user_preferences : option UserPreferences;
  onboarding_answers : option UserPreferences
}.

(** [a || b] on two values that are objects or null. *)
Definition orElse {A} (a b : option A) : option A :=
  match a with
  | Some _ => a
  | None => b
  end.

(** [fetchUserPreferences]; [data] is what the store answered, [None] for
    no row. *)
Definition fetchUserPreferences (data : option Profile) (st : State) : State :=
  match data with
  | Some d => setUserPreferences (orElse (user_preferences d) (onboarding_answers d)) st
  | None => st
  end.

(** The answer of the store to the query on [tourist_spots]. *)
Record SpotsResponse := {
  data : option (list TouristSpot);
  error : bool
}.

(** [fetchSpots]. *)
Definition fetchSpots (resp : SpotsResponse) (st : State) : State * list Effect :=
  let st := setFetchingSpots true st in
  let '(st, done) :=
    if error resp then (st, [ToastError "Failed to fetch tourist spots"])
    else (setSpots (default [] (data resp)) st, []) in
  (setFetchingSpots false st, done).

(** The cards of the auto tab: nothing while the selection is empty, else
    the fetched spots whose identifier is selected. *)
Definition selectedCards (st : State) : list TouristSpot :=
  if (0 <? size (selectedSpots st))%nat then
    List.filter (fun s => bool_decide (id s ∈ selectedSpots st)) (spots st)
  else [].

(** The checkbox of a card of the manual tab. *)
Definition checked (st : State) (s : TouristSpot) : bool :=
  bool_decide (id s ∈ selectedSpots st).

End ModalView.

(** ** ItineraryMap *)

Module ItineraryMap.

Record Spot := {
  id : string;
  name : string;
  location : string;
  latitude : option Q;
  longitude : option Q;
  description : option string;
  municipality : option string
}.

Record State := {
  center : Q * Q;
  validSpots : list Spot
}.

(** The initial state: the centre of Albay, no spot. *)
Definition initial : State :=
  {| center := (131391 # 10000, 1237437 # 10000); validSpots := [] |}.

Definition setCenter (v : Q * Q) (st : State) : State :=
  {| center := v; validSpots := validSpots st |}.

Definition setValidSpots (v : list Spot) (st : State) : State :=
  {| center := center st; validSpots := v |}.

(** [x !== null]. *)
Definition notNull (x : option Q) : bool :=
  match x with
  | Some _ => true
  | None => false
  end.

(** Truthiness of [number | null]: null and zero are falsy. *)
Definition truthy (x : option Q) : bool :=
  match x with
  | Some v => negb (Qeq_bool v 0)
  | None => false
  end.

(** The effect run when [spots] changes. *)
Definition effect (spots : list Spot) (st : State) : State :=
  let spotsWithCoords :=
    List.filter (fun spot => notNull (latitude spot) && notNull (longitude spot)) spots in
  let st := setValidSpots spotsWithCoords st in
  match spotsWithCoords with
  | first :: _ =>
      match latitude first, longitude first with
      | Some lat, Some lng =>
          if truthy (latitude first) && truthy (longitude first)
          then setCenter (lat, lng) st else st
      | _, _ => st
      end
  | [] => st
  end.

(** A rendered marker: its key and its position. *)
Record Marker := { key : string; position : Q * Q }.

(** The markers of the map: one for each valid spot whose coordinates are
    both truthy; the other valid spots render nothing. *)
Definition markers (st : State) : list Marker :=
  omap (fun spot =>
          match latitude spot, longitude spot with
          | Some lat, Some lng =>
              if truthy (latitude spot) && truthy (longitude spot)
              then Some {| key := id spot; position := (lat, lng) |}
              else None
          | _, _ => None
          end)
       (validSpots st).

End ItineraryMap.

Module MapSample.
Import ItineraryMap.

Definition at_ (i : string) (lat lng : option Q) : Spot :=
  {| id := i; name := i; location := "Albay"; latitude := lat; longitude := lng;
     description := None; municipality := None |}.

End MapSample.

Module MoreNotions.

(** The preference record with its activity and budget strings lower-cased,
    and the spot with its category tags and budget tier lower-cased. *)
Definition lowerPrefs (p : Modal.UserPreferences) : Modal.UserPreferences :=
  {| Modal.preferredActivities := map JS.toLowerCase <$> Modal.preferredActivities p;
     Modal.budgetRange := JS.toLowerCase <$> Modal.budgetRange p;
     Modal.sceneryType := Modal.sceneryType p;
     Modal.hiddenGems := Modal.hiddenGems p |}.

Definition lowerSpot (s : Modal.TouristSpot) : Modal.TouristSpot :=
  {| Modal.id := Modal.id s; Modal.name := Modal.name s;
     Modal.description := Modal.description s; Modal.location := Modal.location s;
     Modal.municipality := Modal.municipality s;
     Modal.category := map JS.toLowerCase (Modal.category s);
     Modal.image_url := Modal.image_url s;
     Modal.latitude := Modal.latitude s; Modal.longitude := Modal.longitude s;
     Modal.rating := Modal.rating s;
     Modal.budget_level := JS.toLowerCase <$> Modal.budget_level s;
     Modal.scenery_type := Modal.scenery_type s; Modal.spot_type := Modal.spot_type s;
     Modal.is_hidden_gem := Modal.is_hidden_gem s |}.

(** The number of mails among the effects of the e-mail function. *)
Definition mailsSent {R} (l : list (Email.Effect R)) : nat :=
  length (List.filter (fun e => match e with Email.Send _ => true | _ => false end) l).

(** The log lines about a failed signature check. *)
Definition signatureWarnings {R} (l : list (Email.Effect R)) : list string :=
  omap (fun e => match e with
                 | Email.ConsoleError label detail =>
                     if String.eqb label "Webhook verification failed:"
                     then Some detail else None
                 | _ => None
                 end) l.

(** A coordinate the map treats as usable: present and not zero. *)
Definition usable (x : option Q) (v : Q) : Prop := x = Some v /\ ~ v == 0.

(** A spot that lacks a coordinate. *)
Definition lacksCoordinate (s : ItineraryMap.Spot) : Prop :=
  ItineraryMap.latitude s = None \/ ItineraryMap.longitude s = None.

End MoreNotions.

(** ** Binary64 numbers *)

Module Binary64.

(** A JavaScript number is a binary64 value.  A finite one is kept as the
    rational it denotes, and an arithmetic operation returns the rounding of
    the exact result: to nearest, ties to even, 53 significant bits, no
    exponent below -1074 (gradual underflow).  The scorer starts from finite
    ratings and cannot overflow: half a finite rating plus a small integer
    is below the largest finite number. *)

(** The integer part of the binary logarithm of a positive rational. *)
Definition ilog2 (q : Q) : Z :=
  let k := (Z.log2 (Qnum q) - Z.log2 (Zpos (Qden q)))%Z in
  if Qle_bool (2 ^ k) q then k else (k - 1)%Z.

(** The nearest integer, a tie going to the even one. *)
Definition roundHalfEven (q : Q) : Z :=
  let f := Qfloor q in
  match ((q - inject_Z f) ?= (1 # 2))%Q with
  | Lt => f
  | Gt => (f + 1)%Z
  | Eq => if Z.even f then f else (f + 1)%Z
  end.

(** The exponent of the last place of a non-zero [x]. *)
Definition lastPlace (x : Q) : Z := Z.max (ilog2 (Qabs x) - 52) (-1074).

(** Rounding to binary64. *)
Definition fl (x : Q) : Q :=
  if Qeq_bool x 0 then 0
  else Qred (inject_Z (roundHalfEven (x / 2 ^ lastPlace x)) * 2 ^ lastPlace x).

(** The number a decimal literal or a JSON number denotes. *)
Definition ofDecimal (d : Q) : Q := fl d.

(** The finite binary64 numbers are multiples of 2^-1074; so are their sums
    and differences. *)
Definition onGrid (q : Q) : Prop := exists k : Z, q == inject_Z k * 2 ^ (-1074).

End Binary64.

(** ** UTF-16 strings *)

Module Utf16.

(** A JavaScript string is a sequence of 16-bit code units; here a code
    unit is its number. *)
Definition codeUnit := N.
Definition jsString := list codeUnit.

(** WhiteSpace and LineTerminator of ECMAScript, the code points that
    [trim] strips: TAB, LF, VT, FF, CR, SPACE, U+00A0, U+1680,
    U+2000-U+200A, U+2028, U+2029, U+202F, U+205F, U+3000 and U+FEFF. *)
Definition isWhiteSpace (c : codeUnit) : bool :=
  ((9 <=? c) && (c <=? 13)
   || (c =? 32) || (c =? 160) || (c =? 5760)
   || (8192 <=? c) && (c <=? 8202)
   || (c =? 8232) || (c =? 8233) || (c =? 8239) || (c =? 8287)
   || (c =? 12288) || (c =? 65279))%N.

Fixpoint trimStart (s : jsString) : jsString :=
  match s with
  | [] => []
  | c :: r => if isWhiteSpace c then trimStart r else s
  end.

Fixpoint trimEnd (s : jsString) : jsString :=
  match s with
  | [] => []
  | c :: r =>
      match trimEnd r with
      | [] => if isWhiteSpace c then [] else [c]
      | r' => c :: r'
      end
  end.

Definition trim (s : jsString) : jsString := trimEnd (trimStart s).

(** Truthiness of a string: the empty string is falsy. *)
Definition truthy (s : jsString) : bool :=
  match s with
  | [] => false
  | _ :: _ => true
  end.

(** The code units of a string whose characters are all below U+0100. *)
Definition ofString (s : string) : jsString :=
  map Ascii.N_of_ascii (list_ascii_of_string s).

End Utf16.

(** ** CreateItineraryModal.tsx, with UTF-16 names and binary64 scores *)

(** [Modal] above reads the name as a string of characters below U+0100 and
    adds scores as exact rationals.  This module reads the same handlers
    with the name as its UTF-16 code units and with the one score operation
    that can round in binary64, the final [score += spot.rating / 2],
    rounded.  Spots, preferences, the generator, the comparator and the
    sort are those of [Modal]. *)

Module ModalFull.

Record State := {
  itineraryName : Utf16.jsString;
  loading : bool;
  spots : list Modal.TouristSpot;
  selectedSpots : gset string;
  fetchingSpots : bool;
  userPreferences : option Modal.UserPreferences
}.

Definition setItineraryName (v : Utf16.jsString) (st : State) : State :=
  {| itineraryName := v; loading := loading st; spots := spots st;
     selectedSpots := selectedSpots st; fetchingSpots := fetchingSpots st;
     userPreferences := userPreferences st |}.

Definition setLoading (v : bool) (st : State) : State :=
  {| itineraryName := itineraryName st; loading := v; spots := spots st;
     selectedSpots := selectedSpots st; fetchingSpots := fetchingSpots st;
     userPreferences := userPreferences st |}.

Definition setSelectedSpots (v : gset string) (st : State) : State :=
  {| itineraryName := itineraryName st; loading := loading st; spots := spots st;
     selectedSpots := v; fetchingSpots := fetchingSpots st;
     userPreferences := userPreferences st |}.

Record ItineraryRow := {
  user_id : string;
  row_name : Utf16.jsString;
  row_spots : list Modal.TouristSpot;
  selected_categories : list string
}.

Inductive Effect :=
| ToastError (msg : string)
| ToastSuccess (msg : string)
| Insert (row : ItineraryRow)
| OnOpenChange (open : bool)
| OnSuccess.

(** *** scoreSpot *)

(** The value of [score] when the rating block is reached (source lines
    88 to 118): a sum of small integers, exact in binary64. *)
Definition preferenceScore (p : Modal.UserPreferences) (spot : Modal.TouristSpot) : Z :=
  let score := 0%Z in
  let score :=
    match Modal.preferredActivities p with
    | Some acts => (score + Z.of_nat (length (Modal.activityMatches acts spot)) * 3)%Z
    | None => score
    end in
  let score :=
    match Modal.budgetRange p, Modal.budget_level spot with
    | Some range, Some level =>
        if JS.truthy range && JS.truthy level then
          if String.eqb (JS.toLowerCase level) (JS.toLowerCase range)
          then (score + 2)%Z else score
        else score
    | _, _ => score
    end in
  let score :=
    match Modal.sceneryType p with
    | Some wanted => (score + Z.of_nat (length (Modal.sceneryMatches wanted spot)) * 2)%Z
    | None => score
    end in
  let score :=
    if default false (Modal.hiddenGems p) && Modal.is_hidden_gem spot
    then (score + 2)%Z else score in
  score.

(** [scoreSpot]: the random draw without preferences; otherwise the
    preference score, to which the rating block adds half the rating, both
    the halving and the addition rounded. *)
Definition scoreSpot (prefs : option Modal.UserPreferences) (spot : Modal.TouristSpot)
           (g : Modal.Rng) : Q * Modal.Rng :=
  match prefs with
  | None => Modal.Math_random g
  | Some p =>
      let score := inject_Z (preferenceScore p spot) in
      let score :=
        match Modal.rating spot with
        | Some r =>
            if Qeq_bool r 0 then score
            else Binary64.fl (score + Binary64.fl (r / 2))
        | None => score
        end in
      (score, g)
  end.

(** *** handleAutoSelect *)

Fixpoint scoreAll (prefs : option Modal.UserPreferences) (l : list Modal.TouristSpot)
         (g : Modal.Rng) : list Modal.Scored * Modal.Rng :=
  match l with
  | [] => ([], g)
  | s :: rest =>
      let (sc, g1) := scoreSpot prefs s g in
      let (scored, g2) := scoreAll prefs rest g1 in
      ({| Modal.spot := s; Modal.score := sc |} :: scored, g2)
  end.

(** The sort looks at the sign of [b.score - a.score] only.  That
    difference is rounded in the source, and the rounded difference of two
    binary64 numbers has the sign of the exact one
    ([rounded_difference_sign]), which is what [Modal.compareFn] and
    [Modal.sort] compare. *)
Definition scoredSpots (st : State) (g : Modal.Rng) : list string * Modal.Rng :=
  let (scored, g') := scoreAll (userPreferences st) (spots st) g in
  (map (fun item => Modal.id (Modal.spot item)) (take 8 (Modal.sort scored)), g').

Definition handleAutoSelect (st : State) (g : Modal.Rng)
  : State * Modal.Rng * list Effect :=
  let (ids, g') := scoredSpots st g in
  (setSelectedSpots (list_to_set ids) st, g',
   [ToastSuccess "Auto-selected top 8 recommended spots based on your preferences!"]).

(** *** handleCreateItinerary *)

Definition handleCreateItinerary (userId : string)
           (insertFails : ItineraryRow -> bool) (st : State) : State * list Effect :=
  if negb (Utf16.truthy (Utf16.trim (itineraryName st))) then
    (st, [ToastError "Please enter an itinerary name"])
  else if (size (selectedSpots st) =? 0)%nat then
    (st, [ToastError "Please select at least one spot"])
  else
    let st := setLoading true st in
    let selectedSpotData :=
      List.filter (fun s => bool_decide (Modal.id s ∈ selectedSpots st)) (spots st) in
    let row :=
      {| user_id := userId;
         row_name := itineraryName st;
         row_spots := selectedSpotData;
         selected_categories :=
           JS.spreadSet (flat_map Modal.category selectedSpotData) |} in
    let error := insertFails row in
    let st := setLoading false st in
    if error then
      (st, [Insert row; ToastError "Failed to create itinerary"])
    else
      let st := setItineraryName [] st in
      let st := setSelectedSpots ∅ st in
      (st, [Insert row; ToastSuccess "Itinerary created successfully!";
            OnOpenChange false; OnSuccess]).

(** The same state with the name of a [Modal] state given by its code
    units. *)
Definition ofModal (st : Modal.State) : State :=
  {| itineraryName := Utf16.ofString (Modal.itineraryName st);
     loading := Modal.loading st; spots := Modal.spots st;
     selectedSpots := Modal.selectedSpots st;
     fetchingSpots := Modal.fetchingSpots st;
     userPreferences := Modal.userPreferences st |}.

(** A name made of white space only (the empty name included). *)
Definition blank (s : Utf16.jsString) : Prop :=
  Forall (fun c => Utf16.isWhiteSpace c = true) s.

(** A spot that gets no rating boost: no rating, or a rating of zero. *)
Definition unrated (spot : Modal.TouristSpot) : Prop :=
  match Modal.rating spot with
  | Some r => r == 0
  | None => True
  end.

(** The preference record with another list of preferred activities, or
    without one. *)
Definition withActivities (acts : option (list string)) (p : Modal.UserPreferences)
  : Modal.UserPreferences :=
  {| Modal.preferredActivities := acts; Modal.budgetRange := Modal.budgetRange p;
     Modal.sceneryType := Modal.sceneryType p; Modal.hiddenGems := Modal.hiddenGems p |}.

End ModalFull.

(** ** The mail provider's result *)

Module Resend.

(** What [resend.emails.send] of resend 4.0.0 resolves to: the identifier
    of the queued mail, or, when the provider turns the mail down, no data
    and an error.  The call throws only when the request itself cannot be
    made. *)
Record ErrorResponse := { message : string; name : string }.

Record CreateEmailResponse := {
  data : option string;
  error : option ErrorResponse
}.

(** The provider turning a mail down because of the key. *)
Definition refused : CreateEmailResponse :=
  {| data := None;
     error := Some {| message := "API key is invalid"; name := "validation_error" |} |}.

Definition refuse (m : Email.Mail) : string + CreateEmailResponse := inr refused.

End Resend.

Module FullSample.

Definition stateOf (n : Utf16.jsString) (l : list Modal.TouristSpot) (sel : gset string)
           (p : option Modal.UserPreferences) : ModalFull.State :=
  {| ModalFull.itineraryName := n; ModalFull.loading := false; ModalFull.spots := l;
     ModalFull.selectedSpots := sel; ModalFull.fetchingSpots := false;
     ModalFull.userPreferences := p |}.

(** A spot with a rating given in decimal, tags, and the hidden-gem flag. *)
Definition rated (i : string) (cats : list string) (gem : bool) (decimal : Q)
  : Modal.TouristSpot :=
  {| Modal.id := i; Modal.name := i; Modal.description := None;
     Modal.location := "Albay"; Modal.municipality := None; Modal.category := cats;
     Modal.image_url := None; Modal.latitude := None; Modal.longitude := None;
     Modal.rating := Some (Binary64.ofDecimal decimal);
     Modal.budget_level := None; Modal.scenery_type := []; Modal.spot_type := [];
     Modal.is_hidden_gem := gem |}.

(** Preferences that only ask for hidden gems. *)
Definition gems : Modal.UserPreferences :=
  {| Modal.preferredActivities := None; Modal.budgetRange := None;
     Modal.sceneryType := None; Modal.hiddenGems := Some true |}.

End FullSample.

(** ** Properties of the string operations *)

Module JSFacts.
Import JS.

Lemma append_cons (c : ascii) (a b : string) : String c a ++ b = String c (a ++ b).
Proof. reflexivity. Qed.

Lemma startsWith_spec (s p : string) :
  startsWith s p = true <-> exists post, s = p ++ post.
Proof.
  revert s; induction p as [|a p IH]; intros s; simpl.
  - split; [intros _; exists s; reflexivity | reflexivity].
  - destruct s as [|b s].
    + split; [discriminate | intros [post H]; discriminate].
    + rewrite andb_true_iff, Ascii.eqb_eq, IH. split.
      * intros [-> [post ->]]. exists post. reflexivity.
      * intros [post H]. injection H as -> ->. split; [reflexivity | eauto].
Qed.

Lemma includes_spec (s p : string) :
  includes s p = true <-> exists pre post, s = pre ++ p ++ post.
Proof.
  induction s as [|c s IH].
  - cbn [includes]. rewrite orb_false_r, startsWith_spec. split.
    + intros [post H]. exists "", post. exact H.
    + intros [pre [post H]]. destruct pre as [|x pre]; [|discriminate].
      exists post. exact H.
  - cbn [includes]. rewrite orb_true_iff, startsWith_spec, IH. split.
    + intros [[post H] | [pre [post H]]].
      * exists "", post. exact H.
      * exists (String c pre), post. rewrite append_cons, H. reflexivity.
    + intros [pre [post H]]. destruct pre as [|x pre].
      * left. exists post. exact H.
      * right. rewrite append_cons in H. injection H as _ H. exists pre, post. exact H.
Qed.

Lemma includes_middle (pre p post : string) : includes (pre ++ p ++ post) p = true.
Proof. apply includes_spec. exists pre, post. reflexivity. Qed.

(** A string of white space trims to the empty string. *)
Lemma trimStart_blank (s : string) :
  Forall (fun c => isWhiteSpace c = true) (list_ascii_of_string s) ->
  trimStart s = "".
Proof.
  induction s as [|c s IH]; simpl; intros H; [reflexivity|].
  inversion H as [|? ? Hc Hs]; subst. rewrite Hc. auto.
Qed.

Lemma trim_blank (s : string) :
  Forall (fun c => isWhiteSpace c = true) (list_ascii_of_string s) ->
  trim s = "".
Proof. intros H. unfold trim. rewrite trimStart_blank by exact H. reflexivity. Qed.

Lemma trimEnd_empty (s : string) :
  trimEnd s = "" -> Forall (fun c => isWhiteSpace c = true) (list_ascii_of_string s).
Proof.
  induction s as [|c s IH]; simpl; intros H; [constructor|].
  destruct (trimEnd s) eqn:E; [|discriminate].
  destruct (isWhiteSpace c) eqn:Hc; [|discriminate].
  constructor; auto.
Qed.

Lemma trimStart_suffix (s : string) :
  exists pre, s = pre ++ trimStart s /\
              Forall (fun c => isWhiteSpace c = true) (list_ascii_of_string pre).
Proof.
  induction s as [|c s [pre [E F]]]; simpl.
  - exists "". split; [reflexivity | constructor].
  - destruct (isWhiteSpace c) eqn:Hc.
    + exists (String c pre). split; [rewrite append_cons; f_equal; exact E | constructor; auto].
    + exists "". split; [reflexivity | constructor].
Qed.

Lemma list_ascii_app (a b : string) :
  list_ascii_of_string (a ++ b) = (list_ascii_of_string a ++ list_ascii_of_string b)%list.
Proof.
  induction a as [|c a IH]; [reflexivity|].
  rewrite append_cons. simpl. rewrite IH. reflexivity.
Qed.

(** [trim] yields the empty string exactly on strings of white space. *)
Lemma trim_empty_iff (s : string) :
  trim s = "" <-> Forall (fun c => isWhiteSpace c = true) (list_ascii_of_string s).
Proof.
  split; [|apply trim_blank].
  unfold trim. intros H. apply trimEnd_empty in H.
  destruct (trimStart_suffix s) as [pre [E F]].
  rewrite E, list_ascii_app. apply Forall_app. split; assumption.
Qed.

End JSFacts.

(** ** The preference scorer *)

Module ScorerFacts.
Import Modal Sample.

(** The score is the sum of the five blocks. *)
Lemma scoreSpot_blocks (p : UserPreferences) (spot : TouristSpot) (g : Rng) :
  fst (scoreSpot (Some p) spot g) ==
    activityScore p spot + budgetScore p spot + sceneryScore p spot
    + hiddenGemScore p spot + ratingScore spot.
Proof.
  unfold scoreSpot, activityScore, budgetScore, sceneryScore, hiddenGemScore,
    ratingScore; cbn [fst].
  destruct (preferredActivities p), (sceneryType p), (rating spot) as [r|];
    try destruct (Qeq_bool r 0);
    destruct (budgetRange p) as [range|], (budget_level spot) as [level|];
    try destruct (JS.truthy range && JS.truthy level);
    try destruct (String.eqb _ _);
    destruct (default false (hiddenGems p) && is_hidden_gem spot);
    cbn [andb]; ring.
Qed.

(** Scoring with preferences never touches the generator. *)
Lemma scoreSpot_keeps_rng (p : UserPreferences) (spot : TouristSpot) (g : Rng) :
  snd (scoreSpot (Some p) spot g) = g.
Proof. reflexivity. Qed.

(** The test of the category filter, read as a proposition. *)
Lemma category_test_spec (activity : string) (spot : TouristSpot) :
  existsb (fun cat => JS.includes (JS.toLowerCase cat) (JS.toLowerCase activity))
          (category spot) = true
  <-> Notions.matchesCategory activity spot.
Proof.
  rewrite existsb_exists. unfold Notions.matchesCategory. split.
  - intros [cat [Hin H]]. apply JSFacts.includes_spec in H as [pre [post H]].
    exists cat, pre, post. split; assumption.
  - intros [cat [pre [post [Hin H]]]]. exists cat. split; [exact Hin|].
    apply JSFacts.includes_spec. exists pre, post. exact H.
Qed.

Lemma activityMatches_In (acts : list string) (spot : TouristSpot) (a : string) :
  In a (activityMatches acts spot) <-> In a acts /\ Notions.matchesCategory a spot.
Proof.
  unfold activityMatches. rewrite filter_In, category_test_spec. reflexivity.
Qed.

Lemma activityMatches_cons_hit (a : string) (acts : list string) (spot : TouristSpot) :
  Notions.matchesCategory a spot ->
  activityMatches (a :: acts) spot = a :: activityMatches acts spot.
Proof.
  intros H. apply category_test_spec in H. unfold activityMatches. simpl.
  rewrite H. reflexivity.
Qed.

Lemma activityMatches_cons_miss (a : string) (acts : list string) (spot : TouristSpot) :
  ~ Notions.matchesCategory a spot ->
  activityMatches (a :: acts) spot = activityMatches acts spot.
Proof.
  intros H. unfold activityMatches. simpl.
  destruct (existsb _ (category spot)) eqn:E; [|reflexivity].
  apply category_test_spec in E. contradiction.
Qed.

Lemma ofLength_cons {A} (x : A) (l : list A) : ofLength (x :: l) == ofLength l + 1.
Proof.
  unfold ofLength. cbn [length]. rewrite Nat2Z.inj_succ, <- Z.add_1_r.
  rewrite inject_Z_plus. reflexivity.
Qed.

(** The end-to-end example of the specification: 3 + 2 + 2 + 2 = 9. *)
Example score_hiker_spotA : fst (scoreSpot (Some hiker) spotA halves) == 9.
Proof. vm_compute. reflexivity. Qed.

Lemma one_activity_hits (a : string) (cats : list string) :
  ((if existsb (fun cat => JS.includes (JS.toLowerCase cat) (JS.toLowerCase a)) cats
    then 1 else 0)
   <= length (List.filter
                (fun pair : string * string =>
                   JS.includes (JS.toLowerCase (snd pair)) (JS.toLowerCase (fst pair)))
                (map (fun y => (a, y)) cats)))%nat.
Proof.
  induction cats as [|c cs IH]; [reflexivity|].
  cbn [existsb map List.filter fst snd].
  destruct (JS.includes (JS.toLowerCase c) (JS.toLowerCase a));
    cbn [orb length]; [lia | exact IH].
Qed.

(** The number of matched activities never exceeds the number of
    (activity, tag) pairs that hit. *)
Lemma activityMatches_le_hitCount (acts : list string) (spot : TouristSpot) :
  (length (activityMatches acts spot) <= Notions.hitCount acts spot)%nat.
Proof.
  unfold Notions.hitCount, activityMatches.
  induction acts as [|a acts IH]; [reflexivity|].
  cbn [list_prod]. rewrite List.filter_app, length_app. cbn [List.filter].
  pose proof (one_activity_hits a (category spot)) as Hone.
  destruct (existsb _ (category spot)); cbn [length]; lia.
Qed.




End ScorerFacts.

(** ** The top-8 selector *)

Module SelectorFacts.
Import Modal Sample.

(** Mapping the scorer over the spots keeps the spots, in order. *)
Lemma scoreAll_spots (prefs : option UserPreferences) (l : list TouristSpot) (g : Rng) :
  map spot (fst (scoreAll prefs l g)) = l.
Proof.
  revert g; induction l as [|s l IH]; intros g; [reflexivity|].
  cbn [scoreAll]. destruct (scoreSpot prefs s g) as [sc g1].
  specialize (IH g1). destruct (scoreAll prefs l g1) as [scored g2].
  cbn [fst map spot] in *. rewrite IH. reflexivity.
Qed.

Lemma scoreAll_length (prefs : option UserPreferences) (l : list TouristSpot) (g : Rng) :
  length (fst (scoreAll prefs l g)) = length l.
Proof. rewrite <- (scoreAll_spots prefs l g) at 2. rewrite length_map. reflexivity. Qed.

Lemma sortInsert_perm (x : Scored) (l : list Scored) :
  Permutation (sortInsert x l) (x :: l).
Proof.
  induction l as [|y r IH]; [reflexivity|].
  cbn [sortInsert]. destruct (compareFn x y ?= 0)%Q; try reflexivity.
  rewrite IH. apply perm_swap.
Qed.

Lemma sort_perm (l : list Scored) : Permutation (sort l) l.
Proof.
  induction l as [|x r IH]; [reflexivity|].
  cbn [sort]. rewrite sortInsert_perm, IH. reflexivity.
Qed.

Lemma sortInsert_sorted (x : Scored) (l : list Scored) :
  StronglySorted Notions.descending l -> StronglySorted Notions.descending (sortInsert x l).
Proof.
  induction l as [|y r IH]; intros Hs.
  - repeat constructor.
  - apply StronglySorted_inv in Hs as [Hr Hy]. cbn [sortInsert].
    assert (Hfirst : score y <= score x ->
                     StronglySorted Notions.descending (x :: y :: r)).
    { intros Hle. constructor; [constructor; assumption|].
      constructor; [exact Hle|].
      eapply Forall_impl; [exact Hy|]. unfold Notions.descending. intros z Hz.
      apply Qle_trans with (score y); assumption. }
    destruct (compareFn x y ?= 0)%Q eqn:E.
    + apply Qeq_alt in E. apply Hfirst. unfold compareFn in E. lra.
    + apply Qlt_alt in E. apply Hfirst. unfold compareFn in E. lra.
    + apply Qgt_alt in E. constructor; [apply IH; exact Hr|].
      rewrite sortInsert_perm. constructor; [|exact Hy].
      unfold Notions.descending, compareFn in *. lra.
Qed.

Lemma sort_sorted (l : list Scored) : StronglySorted Notions.descending (sort l).
Proof.
  induction l as [|x r IH]; [constructor|].
  cbn [sort]. apply sortInsert_sorted. exact IH.
Qed.

Lemma sortInsert_stable (q : Q) (x : Scored) (l : list Scored) :
  Notions.withScore q (sortInsert x l) = Notions.withScore q (x :: l).
Proof.
  unfold Notions.withScore. induction l as [|y r IH]; [reflexivity|].
  cbn [sortInsert]. destruct (compareFn x y ?= 0)%Q eqn:E; try reflexivity.
  apply Qgt_alt in E. unfold compareFn in E.
  cbn [List.filter] in *. rewrite IH.
  destruct (Qeq_bool (score y) q) eqn:Ey; [|reflexivity].
  destruct (Qeq_bool (score x) q) eqn:Ex; [|reflexivity].
  apply Qeq_bool_eq in Ey, Ex. lra.
Qed.

Lemma sort_stable (q : Q) (l : list Scored) : Notions.withScore q (sort l) = Notions.withScore q l.
Proof.
  induction l as [|x r IH]; [reflexivity|].
  cbn [sort]. rewrite sortInsert_stable. unfold Notions.withScore in *.
  cbn [List.filter]. rewrite IH. reflexivity.
Qed.

Lemma withScore_head (a : Scored) (l : list Scored) :
  Notions.withScore (score a) (a :: l) = a :: Notions.withScore (score a) l.
Proof.
  unfold Notions.withScore. cbn [List.filter].
  rewrite (proj2 (Qeq_bool_iff _ _)) by reflexivity. reflexivity.
Qed.

Lemma withScore_In (q : Q) (a : Scored) (l : list Scored) :
  In a (Notions.withScore q l) <-> In a l /\ score a == q.
Proof. unfold Notions.withScore. rewrite filter_In, Qeq_bool_iff. reflexivity. Qed.

(** A list in Notions.descending order is settled by its groups of equal score:
    two Notions.descending lists with the same groups are the same list.  So the
    stable Notions.descending arrangement of an array is unique, whichever
    stable algorithm produces it. *)
Lemma stable_descending_unique (l1 l2 : list Scored) :
  StronglySorted Notions.descending l1 ->
  StronglySorted Notions.descending l2 ->
  (forall q, Notions.withScore q l1 = Notions.withScore q l2) ->
  l1 = l2.
Proof.
  revert l2; induction l1 as [|a l1 IH]; intros l2 H1 H2 Hq.
  - destruct l2 as [|b l2]; [reflexivity|].
    specialize (Hq (score b)). rewrite withScore_head in Hq. discriminate.
  - destruct l2 as [|b l2].
    + specialize (Hq (score a)). rewrite withScore_head in Hq. discriminate.
    + apply StronglySorted_inv in H1 as [H1 Ha], H2 as [H2 Hb].
      rewrite List.Forall_forall in Ha, Hb.
      assert (Hba : score b <= score a).
      { assert (Hin : In b (Notions.withScore (score b) (a :: l1))).
        { rewrite Hq, withScore_head. left. reflexivity. }
        apply withScore_In in Hin as [[<- | Hin] _]; [apply Qle_refl|].
        apply Ha. exact Hin. }
      assert (Hab : score a <= score b).
      { assert (Hin : In a (Notions.withScore (score a) (b :: l2))).
        { rewrite <- Hq, withScore_head. left. reflexivity. }
        apply withScore_In in Hin as [[<- | Hin] _]; [apply Qle_refl|].
        apply Hb. exact Hin. }
      assert (Heq : score b == score a) by lra.
      assert (a = b) as <-.
      { pose proof (Hq (score a)) as Hh. rewrite withScore_head in Hh.
        unfold Notions.withScore in Hh. cbn [List.filter] in Hh.
        rewrite (proj2 (Qeq_bool_iff _ _) Heq) in Hh. congruence. }
      f_equal. apply IH; [assumption | assumption |].
      intros q. specialize (Hq q). unfold Notions.withScore in *.
      cbn [List.filter] in Hq. destruct (Qeq_bool (score a) q); congruence.
Qed.

Lemma sorted_app_dominates (l1 l2 : list Scored) :
  StronglySorted Notions.descending (l1 ++ l2) ->
  forall a b, In a l1 -> In b l2 -> score b <= score a.
Proof.
  induction l1 as [|x l1 IH]; intros Hs a b Ha Hb; [destruct Ha|].
  cbn [app] in Hs. apply StronglySorted_inv in Hs as [Hs Hx].
  destruct Ha as [<- | Ha]; [|apply IH; assumption].
  rewrite List.Forall_forall in Hx. apply Hx, in_or_app. right. exact Hb.
Qed.

Lemma size_list_to_set_le (l : list string) :
  (size (list_to_set l : gset string) <= length l)%nat.
Proof.
  induction l as [|x l IH]; [reflexivity|].
  cbn [list_to_set foldr length]. rewrite size_union_alt, size_singleton.
  assert (Hsub : (list_to_set l ∖ {[x]} : gset string) ⊆ list_to_set l).
  { intros y Hy. apply elem_of_difference in Hy as [Hy _]. exact Hy. }
  apply subseteq_size in Hsub. lia.
Qed.

Lemma scoredSpots_eq (st : State) (g : Rng) :
  fst (scoredSpots st g) =
    map (fun item => id (spot item))
        (take 8 (sort (fst (scoreAll (userPreferences st) (spots st) g)))).
Proof.
  unfold scoredSpots. destruct (scoreAll _ _ _) as [scored g']. reflexivity.
Qed.

Lemma handleAutoSelect_selected (st : State) (g : Rng) :
  selectedSpots (fst (fst (handleAutoSelect st g))) = list_to_set (fst (scoredSpots st g)).
Proof.
  unfold handleAutoSelect. destruct (scoredSpots st g) as [ids g']. reflexivity.
Qed.

(** Four rated spots: the two rated 3 tie and keep their input order. *)
Example auto_select_ties :
  let l := [spotOf "a" [] (Some 3); spotOf "b" [] (Some 5);
            spotOf "c" [] (Some 3); spotOf "d" [] (Some (9 # 2))] in
  fst (scoredSpots (stateOf "trip" l ∅ (Some noPreferences)) halves)
  = ["b"; "d"; "a"; "c"].
Proof. vm_compute. reflexivity. Qed.

End SelectorFacts.

(** ** The selection set and the creation handler *)

Module CreationFacts.
Import Modal Sample.

Lemma arrayIncludes_In (l : list string) (x : string) :
  JS.arrayIncludes l x = true <-> In x l.
Proof.
  unfold JS.arrayIncludes. rewrite existsb_exists. split.
  - intros [y [Hy E]]. apply String.eqb_eq in E. subst y. exact Hy.
  - intros Hx. exists x. split; [exact Hx | apply String.eqb_refl].
Qed.

Lemma setAdd_In (acc : list string) (x y : string) :
  In y (JS.setAdd acc x) <-> In y acc \/ y = x.
Proof.
  unfold JS.setAdd. destruct (JS.arrayIncludes acc x) eqn:E.
  - apply arrayIncludes_In in E. split; [auto | intros [H | ->]; assumption].
  - rewrite in_app_iff. cbn [In]. intuition (subst; auto).
Qed.

Lemma setAdd_NoDup (acc : list string) (x : string) :
  List.NoDup acc -> List.NoDup (JS.setAdd acc x).
Proof.
  intros Hnd. unfold JS.setAdd. destruct (JS.arrayIncludes acc x) eqn:E; [exact Hnd|].
  assert (Hx : ~ In x acc).
  { intros Hin. apply arrayIncludes_In in Hin. congruence. }
  clear E. induction acc as [|a acc IH]; cbn [app].
  - constructor; [intros [] | constructor].
  - apply List.NoDup_cons_iff in Hnd as [Ha Hnd]. constructor.
    + rewrite in_app_iff. cbn [In]. intros [H | [H | []]]; [contradiction|].
      apply Hx. left. symmetry. exact H.
    + apply IH; [exact Hnd|]. intros H. apply Hx. right. exact H.
Qed.

Lemma fold_setAdd_In (xs acc : list string) (y : string) :
  In y (fold_left JS.setAdd xs acc) <-> In y acc \/ In y xs.
Proof.
  revert acc; induction xs as [|x xs IH]; intros acc; cbn [fold_left In].
  - tauto.
  - rewrite IH, setAdd_In. intuition (subst; auto).
Qed.

Lemma fold_setAdd_NoDup (xs acc : list string) :
  List.NoDup acc -> List.NoDup (fold_left JS.setAdd xs acc).
Proof.
  revert acc; induction xs as [|x xs IH]; intros acc H; cbn [fold_left];
    [exact H | apply IH, setAdd_NoDup, H].
Qed.

(** Spreading a [Set] built from an array lists the elements of the array,
    each once. *)
Lemma spreadSet_In (xs : list string) (y : string) : In y (JS.spreadSet xs) <-> In y xs.
Proof. unfold JS.spreadSet. rewrite fold_setAdd_In. cbn [In]. tauto. Qed.

Lemma spreadSet_NoDup (xs : list string) : List.NoDup (JS.spreadSet xs).
Proof. apply fold_setAdd_NoDup. constructor. Qed.

Lemma truthy_trim (s : string) : JS.truthy (JS.trim s) = true <-> JS.trim s <> "".
Proof.
  unfold JS.truthy. rewrite negb_true_iff. split.
  - intros E H. rewrite H in E. discriminate.
  - intros H. apply String.eqb_neq. exact H.
Qed.

Lemma size_zero_empty (X : gset string) : (size X =? 0)%nat = true <-> X = ∅.
Proof. rewrite Nat.eqb_eq, size_empty_iff. apply leibniz_equiv_iff. Qed.

(** What [handleCreateItinerary] does once both checks pass. *)
Lemma handleCreateItinerary_valid (userId : string) (insertFails : ItineraryRow -> bool)
      (st : State) :
  JS.trim (itineraryName st) <> "" ->
  selectedSpots st <> ∅ ->
  handleCreateItinerary userId insertFails st =
    let row := Notions.createdRow userId st in
    if insertFails row then
      (setLoading false (setLoading true st),
       [Insert row; ToastError "Failed to create itinerary"])
    else
      (setSelectedSpots ∅ (setItineraryName "" (setLoading false (setLoading true st))),
       [Insert row; ToastSuccess "Itinerary created successfully!";
        OnOpenChange false; OnSuccess]).
Proof.
  intros Hname Hsel. unfold handleCreateItinerary.
  rewrite (proj2 (truthy_trim _) Hname). cbn [negb].
  destruct (size (selectedSpots st) =? 0)%nat eqn:E.
  - apply size_zero_empty in E. contradiction.
  - reflexivity.
Qed.

Lemma filter_sublist {A} (f : A -> bool) (l : list A) : sublist (List.filter f l) l.
Proof.
  induction l as [|x l IH]; cbn [List.filter]; [constructor|].
  destruct (f x); [apply sublist_skip | apply sublist_cons]; exact IH.
Qed.

Lemma filter_none {A} (f : A -> bool) (l : list A) :
  (forall x, In x l -> f x = false) -> List.filter f l = [].
Proof.
  induction l as [|x l IH]; intros H; cbn [List.filter]; [reflexivity|].
  rewrite (H x) by (left; reflexivity). apply IH. intros y Hy. apply H. right. exact Hy.
Qed.

(** The example of the specification: two spots, three distinct tags. *)
Example categories_nature_hiking_food :
  selected_categories
    (Notions.createdRow "u1"
       (stateOf "trip" [spotOf "a" ["Nature"; "Hiking"] None;
                        spotOf "b" ["Hiking"; "Food"] None]
                {[ "a"; "b" ]} None))
  = ["Nature"; "Hiking"; "Food"].
Proof. vm_compute. reflexivity. Qed.

(** C4: when creation goes through (a name that is not blank, a selection
    that is not empty) the handler issues exactly one insert, and the
    category list of the inserted row has no duplicate and holds exactly
    the tags carried by the spots of that row's spot list. *)
Theorem created_categories_are_union
        (userId : string) (insertFails : ItineraryRow -> bool) (st : State) :
  JS.trim (itineraryName st) <> "" ->
  selectedSpots st <> ∅ ->
  exists row rest,
    snd (handleCreateItinerary userId insertFails st) = Insert row :: rest
    /\ (forall r, ~ In (Insert r) rest)
    /\ List.NoDup (selected_categories row)
    /\ (forall c, In c (selected_categories row)
                  <-> exists s, In s (row_spots row) /\ In c (category s)).
Proof.
  intros Hname Hsel. rewrite handleCreateItinerary_valid by assumption. cbv zeta.
  exists (Notions.createdRow userId st).
  assert (Hcats : List.NoDup (selected_categories (Notions.createdRow userId st))
                  /\ (forall c, In c (selected_categories (Notions.createdRow userId st))
                        <-> exists s, In s (row_spots (Notions.createdRow userId st))
                                      /\ In c (category s))).
  { unfold Notions.createdRow; cbn [selected_categories row_spots]. split.
    - apply spreadSet_NoDup.
    - intros c. rewrite spreadSet_In, in_flat_map. reflexivity. }
  destruct (insertFails (Notions.createdRow userId st)); cbn [snd];
    eexists; (split; [reflexivity|]); (split; [|exact Hcats]);
    intros r Hin; cbn [In] in Hin; intuition discriminate.
Qed.

Lemma created_categories_are_union_witness :
  exists row rest,
    snd (handleCreateItinerary "u1" (fun _ => false)
           (stateOf "trip" [spotOf "a" ["Nature"; "Hiking"] None;
                            spotOf "b" ["Hiking"; "Food"] None]
                    {[ "a"; "b" ]} None))
    = Insert row :: rest
    /\ (forall r, ~ In (Insert r) rest)
    /\ List.NoDup (selected_categories row)
    /\ (forall c, In c (selected_categories row)
                  <-> exists s, In s (row_spots row) /\ In c (category s)).
Proof.
  apply (created_categories_are_union "u1" (fun _ => false)
           (stateOf "trip" [spotOf "a" ["Nature"; "Hiking"] None;
                            spotOf "b" ["Hiking"; "Food"] None]
                    {[ "a"; "b" ]} None)).
  - vm_compute. discriminate.
  - intros H. apply (f_equal size) in H. vm_compute in H. discriminate.
Defined.

(** C6: once both checks pass the handler issues the insert; if the store
    answers with an error the name and the selection are what they were
    (and an error is notified), otherwise the name becomes empty and the
    selection becomes the empty set.  Either way [loading] ends false and
    the fetched spots are untouched. *)
Theorem insert_outcome_and_local_state
        (userId : string) (insertFails : ItineraryRow -> bool) (st : State) :
  JS.trim (itineraryName st) <> "" ->
  selectedSpots st <> ∅ ->
  let row := Notions.createdRow userId st in
  let st' := fst (handleCreateItinerary userId insertFails st) in
  let effects := snd (handleCreateItinerary userId insertFails st) in
  loading st' = false
  /\ spots st' = spots st
  /\ (insertFails row = true ->
        itineraryName st' = itineraryName st
        /\ selectedSpots st' = selectedSpots st
        /\ effects = [Insert row; ToastError "Failed to create itinerary"])
  /\ (insertFails row = false ->
        itineraryName st' = ""
        /\ selectedSpots st' = ∅
        /\ effects = [Insert row; ToastSuccess "Itinerary created successfully!";
                      OnOpenChange false; OnSuccess]).
Proof.
  intros Hname Hsel. rewrite handleCreateItinerary_valid by assumption. cbv zeta.
  destruct (insertFails (Notions.createdRow userId st)); cbn [fst snd];
    repeat split; try reflexivity; intros; discriminate.
Qed.

Lemma insert_outcome_and_local_state_witness :
  let st := stateOf "trip" [spotOf "a" ["Nature"] None] {[ "a" ]} None in
  let st' := fst (handleCreateItinerary "u1" (fun _ => true) st) in
  itineraryName st' = "trip" /\ selectedSpots st' = {[ "a" ]}.
Proof.
  cbv zeta.
  pose proof (insert_outcome_and_local_state "u1" (fun _ => true)
                (stateOf "trip" [spotOf "a" ["Nature"] None] {[ "a" ]} None)) as H.
  cbv zeta in H.
  destruct H as [_ [_ [Hfail _]]].
  - vm_compute. discriminate.
  - intros H. apply (f_equal size) in H. vm_compute in H. discriminate.
  - destruct (Hfail eq_refl) as [Hn [Hs _]]. split; [exact Hn | exact Hs].
Defined.

(** Membership after one toggle. *)
Lemma toggled_elem (spotId y : string) (sel : gset string) :
  y ∈ (if bool_decide (spotId ∈ sel) then sel ∖ {[ spotId ]} else sel ∪ {[ spotId ]})
  <-> (y = spotId /\ spotId ∉ sel) \/ (y <> spotId /\ y ∈ sel).
Proof.
  case_bool_decide as Hin.
  - rewrite elem_of_difference, elem_of_singleton.
    destruct (decide (y = spotId)) as [-> | Hne]; tauto.
  - rewrite elem_of_union, elem_of_singleton.
    destruct (decide (y = spotId)) as [-> | Hne]; tauto.
Qed.

(** C7: one toggle removes a selected identifier and inserts one that is
    not selected, touching no other identifier; a second toggle of the
    same identifier gives back the state it started from. *)
Theorem toggle_twice_restores (spotId : string) (st : State) :
  toggleSpot spotId (toggleSpot spotId st) = st
  /\ (spotId ∈ selectedSpots st ->
        selectedSpots (toggleSpot spotId st) = selectedSpots st ∖ {[ spotId ]})
  /\ (spotId ∉ selectedSpots st ->
        selectedSpots (toggleSpot spotId st) = selectedSpots st ∪ {[ spotId ]})
  /\ (spotId ∈ selectedSpots (toggleSpot spotId st) <-> spotId ∉ selectedSpots st)
  /\ (forall other, other <> spotId ->
        (other ∈ selectedSpots (toggleSpot spotId st) <-> other ∈ selectedSpots st)).
Proof.
  destruct st as [n ld sp sel fs up].
  unfold toggleSpot, setSelectedSpots; cbn [selectedSpots itineraryName loading spots
                                             fetchingSpots userPreferences].
  split; [|split; [|split; [|split]]].
  - f_equal. apply set_eq. intros y. rewrite toggled_elem, !toggled_elem.
    destruct (decide (y = spotId)) as [-> | Hne], (decide (spotId ∈ sel)); tauto.
  - intros Hin. rewrite (bool_decide_eq_true_2 _ Hin). reflexivity.
  - intros Hout. rewrite (bool_decide_eq_false_2 _ Hout). reflexivity.
  - rewrite toggled_elem. destruct (decide (spotId ∈ sel)); tauto.
  - intros other Hne. rewrite toggled_elem. tauto.
Qed.

(** C10: the spot list of the inserted row is the fetched list filtered by
    membership of the identifier in the selection, so it keeps the fetched
    order and ignores selected identifiers that no fetched spot carries;
    when no fetched spot is selected the row is inserted all the same,
    with an empty spot list and an empty category list. *)
Theorem persisted_spots_are_selected_fetched
        (userId : string) (insertFails : ItineraryRow -> bool) (st : State) :
  JS.trim (itineraryName st) <> "" ->
  selectedSpots st <> ∅ ->
  exists row rest,
    snd (handleCreateItinerary userId insertFails st) = Insert row :: rest
    /\ row_spots row =
         List.filter (fun s => bool_decide (id s ∈ selectedSpots st)) (spots st)
    /\ (forall s, In s (row_spots row) <-> In s (spots st) /\ id s ∈ selectedSpots st)
    /\ sublist (row_spots row) (spots st)
    /\ ((forall s, In s (spots st) -> id s ∉ selectedSpots st) ->
        row_spots row = [] /\ selected_categories row = []).
Proof.
  intros Hname Hsel. rewrite handleCreateItinerary_valid by assumption. cbv zeta.
  exists (Notions.createdRow userId st).
  assert (Hrow :
            row_spots (Notions.createdRow userId st) =
              List.filter (fun s => bool_decide (id s ∈ selectedSpots st)) (spots st)
            /\ (forall s, In s (row_spots (Notions.createdRow userId st))
                          <-> In s (spots st) /\ id s ∈ selectedSpots st)
            /\ sublist (row_spots (Notions.createdRow userId st)) (spots st)
            /\ ((forall s, In s (spots st) -> id s ∉ selectedSpots st) ->
                row_spots (Notions.createdRow userId st) = []
                /\ selected_categories (Notions.createdRow userId st) = [])).
  { unfold Notions.createdRow; cbn [row_spots selected_categories].
    split; [reflexivity|]. split; [|split].
    - intros s. rewrite filter_In, bool_decide_eq_true. reflexivity.
    - apply filter_sublist.
    - intros Hmiss. rewrite filter_none; [split; reflexivity|].
      intros s Hs. apply bool_decide_eq_false_2, Hmiss, Hs. }
  destruct (insertFails (Notions.createdRow userId st)); cbn [snd];
    eexists; (split; [reflexivity | exact Hrow]).
Qed.

Lemma persisted_spots_are_selected_fetched_witness :
  let st := stateOf "trip" [spotOf "a" ["Nature"] None] {[ "zz" ]} None in
  JS.trim (itineraryName st) <> ""
  /\ selectedSpots st <> ∅
  /\ exists row rest,
       snd (handleCreateItinerary "u1" (fun _ => false) st) = Insert row :: rest
       /\ row_spots row = [].
Proof.
  cbv zeta.
  assert (Hname : JS.trim (itineraryName
                    (stateOf "trip" [spotOf "a" ["Nature"] None] {[ "zz" ]} None)) <> "")
    by (vm_compute; discriminate).
  assert (Hsel : selectedSpots
                   (stateOf "trip" [spotOf "a" ["Nature"] None] {[ "zz" ]} None) <> ∅).
  { intros H. apply (f_equal size) in H. vm_compute in H. discriminate. }
  split; [exact Hname|]. split; [exact Hsel|].
  destruct (persisted_spots_are_selected_fetched "u1" (fun _ => false) _ Hname Hsel)
    as [row [rest [Heff [Hspots _]]]].
  exists row, rest. split; [exact Heff|]. rewrite Hspots. vm_compute. reflexivity.
Defined.

End CreationFacts.

(** ** The e-mail function *)

Module EmailFacts.
Import Email.

Lemma append_assoc (a b c : string) : (a ++ b) ++ c = a ++ (b ++ c).
Proof.
  induction a as [|x a IH]; [reflexivity|].
  rewrite !JSFacts.append_cons, IH. reflexivity.
Qed.

(** The rendered page contains the link and the code. *)
Lemma emailHtml_embeds (link code : string) :
  JS.includes (emailHtml link code) link = true
  /\ JS.includes (emailHtml link code) code = true.
Proof.
  unfold emailHtml. split.
  - apply JSFacts.includes_middle.
  - apply JSFacts.includes_spec.
    exists (htmlHead ++ link ++ htmlMiddle), htmlTail.
    rewrite !append_assoc. reflexivity.
Qed.

(** Where the two holes of the template are: the link is the value of
    the button's [href], the code is the content of the [code] block. *)
Example link_is_the_href :
  JS.startsWith (String.rev htmlHead) (String.rev ("<a href=" ++ dq)) = true
  /\ JS.startsWith htmlMiddle
       (dq ++ " class=" ++ dq ++ "button" ++ dq ++ ">Verify Email Address</a>") = true.
Proof. split; vm_compute; reflexivity. Qed.

Example code_is_the_code_block :
  JS.startsWith (String.rev htmlMiddle)
    (String.rev ("<div class=" ++ dq ++ "code" ++ dq ++ ">")) = true
  /\ JS.startsWith htmlTail "</div>" = true.
Proof. split; vm_compute; reflexivity. Qed.

Section Handler.

Context {SendResult Webhook : Type}.
Variable Webhook_new : string -> string + Webhook.
Variable JSON_parse : string -> string + HookPayload.
Variable resend_emails_send : Mail -> string + SendResult.

(** The handler after the signature block, given what the block logged. *)
Lemma handler_after_signature
      (verify : Webhook -> string -> Headers -> option string)
      (env : Env) (req : Request) (logged : list (Effect SendResult)) :
  method req <> "OPTIONS" ->
  verifySignature Webhook_new verify env (body req) (req_headers req) = inr logged ->
  handler Webhook_new verify JSON_parse resend_emails_send env req =
    match JSON_parse (body req) with
    | inl message => failed message logged
    | inr p =>
        match resend_emails_send (mailFor env p) with
        | inl message => failed message (logged ++ [Send (mailFor env p)])%list
        | inr emailResponse =>
            ({| status := 200; headers := jsonHeaders;
                resp_body := BodySendResult emailResponse |},
             (logged ++ [Send (mailFor env p);
                         ConsoleLog "Verification email sent successfully:"
                                    emailResponse])%list)
        end
    end.
Proof.
  intros Hm Hsig. unfold handler.
  rewrite (proj2 (String.eqb_neq _ _) Hm), Hsig. reflexivity.
Qed.

Lemma verifySignature_checked
      (verify : Webhook -> string -> Headers -> option string)
      (env : Env) (payload : string) (hs : Headers) (wh : Webhook) :
  JS.truthy_opt (hookSecret env) = true ->
  Webhook_new (default "" (hookSecret env)) = inr wh ->
  verifySignature (SendResult := SendResult) Webhook_new verify env payload hs =
    inr match verify wh payload hs with
        | Some err => [ConsoleError "Webhook verification failed:" err]
        | None => []
        end.
Proof.
  intros Hs Hw. unfold verifySignature. rewrite Hs, Hw.
  destruct (verify wh payload hs); reflexivity.
Qed.

(** C8: take a request other than the pre-flight, a secret that is set
    and a verifier built from it.  Whether the signature check throws
    or passes, the response is the same, and so is everything the
    handler does, the one log line about the failed check apart; in
    particular a payload that parses is mailed all the same. *)
Theorem verification_failure_does_not_abort
        (verifyThrows verifyPasses : Webhook -> string -> Headers -> option string)
        (env : Env) (req : Request) (wh : Webhook) (err : string) :
  method req <> "OPTIONS" ->
  JS.truthy_opt (hookSecret env) = true ->
  Webhook_new (default "" (hookSecret env)) = inr wh ->
  verifyThrows wh (body req) (req_headers req) = Some err ->
  verifyPasses wh (body req) (req_headers req) = None ->
  let failing := handler Webhook_new verifyThrows JSON_parse resend_emails_send env req in
  let passing := handler Webhook_new verifyPasses JSON_parse resend_emails_send env req in
  fst failing = fst passing
  /\ snd failing = ConsoleError "Webhook verification failed:" err :: snd passing
  /\ (forall p, JSON_parse (body req) = inr p -> In (Send (mailFor env p)) (snd failing)).
Proof.
  intros Hm Hs Hw Hthrows Hpasses failing passing. subst failing passing.
  rewrite (handler_after_signature verifyThrows env req
             [ConsoleError "Webhook verification failed:" err])
    by (try exact Hm; rewrite (verifySignature_checked _ _ _ _ wh Hs Hw), Hthrows;
        reflexivity).
  rewrite (handler_after_signature verifyPasses env req [])
    by (try exact Hm; rewrite (verifySignature_checked _ _ _ _ wh Hs Hw), Hpasses;
        reflexivity).
  destruct (JSON_parse (body req)) as [message | p].
  - split; [reflexivity|]. split; [reflexivity|]. intros p Hp. discriminate Hp.
  - destruct (resend_emails_send (mailFor env p)) as [message | r];
      (split; [reflexivity|]); (split; [reflexivity|]);
      intros p' Hp'; injection Hp' as <-; cbn; auto.
Qed.

(** The responses by path.  The pre-flight request is answered with the
    CORS headers and no body.  The link is the base URL followed by the verify path with the
    token hash, the action and the redirect; the page mailed for a
    payload contains that link and the code.  For any other request
    whose payload parses (the verifier having been built), that mail is
    handed to the provider; the response is 200 with the provider's
    result when the provider returns, and 500 with the error message
    when it throws.  A payload that does not parse, or a verifier that
    cannot be built, gives 500 with the message, and no mail. *)
Theorem email_function_responses
        (verify : Webhook -> string -> Headers -> option string)
        (env : Env) (req : Request) :
  let run := handler Webhook_new verify JSON_parse resend_emails_send env req in
  let signature := verifySignature (SendResult := SendResult) Webhook_new verify env
                                   (body req) (req_headers req) in
  (method req = "OPTIONS" ->
     run = ({| status := 200; headers := corsHeaders; resp_body := BodyNull |}, []))
  /\ (forall baseUrl d,
        verificationLink (Some baseUrl) d =
          baseUrl ++ "/auth/v1/verify?token=" ++ token_hash d
            ++ "&type=" ++ email_action_type d ++ "&redirect_to=" ++ redirect_to d)
  /\ (forall p,
        JS.includes (html (mailFor env p))
                    (verificationLink (SUPABASE_URL env) (email_data p)) = true
        /\ JS.includes (html (mailFor env p)) (token (email_data p)) = true
        /\ to (mailFor env p) = [email (user p)])
  /\ (forall logged p,
        method req <> "OPTIONS" ->
        signature = inr logged ->
        JSON_parse (body req) = inr p ->
        In (Send (mailFor env p)) (snd run)
        /\ (forall r, resend_emails_send (mailFor env p) = inr r ->
              fst run = {| status := 200; headers := jsonHeaders;
                           resp_body := BodySendResult r |})
        /\ (forall message, resend_emails_send (mailFor env p) = inl message ->
              fst run = {| status := 500; headers := jsonHeaders;
                           resp_body := BodyError message |}))
  /\ (forall message,
        method req <> "OPTIONS" ->
        signature = inl message
        \/ (exists logged, signature = inr logged /\ JSON_parse (body req) = inl message) ->
        fst run = {| status := 500; headers := jsonHeaders;
                     resp_body := BodyError message |}
        /\ (forall mail, ~ In (Send mail) (snd run))).
Proof.
  intros run signature. subst run signature.
  split; [|split; [|split; [|split]]].
  - intros Hm. unfold handler. rewrite Hm. reflexivity.
  - reflexivity.
  - intros p. destruct (emailHtml_embeds
                          (verificationLink (SUPABASE_URL env) (email_data p))
                          (token (email_data p))) as [Hl Hc].
    split; [exact Hl|]. split; [exact Hc | reflexivity].
  - intros logged p Hm Hsig Hp.
    rewrite (handler_after_signature verify env req logged Hm Hsig), Hp.
    destruct (resend_emails_send (mailFor env p)) as [message | r]; cbn [fst snd failed].
    + split; [rewrite !in_app_iff; cbn; auto|].
      split; [intros r Hr; discriminate Hr | intros m Hm'; injection Hm' as <-; reflexivity].
    + split; [rewrite in_app_iff; cbn; auto|].
      split; [intros r' Hr; injection Hr as <-; reflexivity | intros m Hm'; discriminate Hm'].
  - intros message Hm [Hsig | [logged [Hsig Hp]]].
    + unfold handler. rewrite (proj2 (String.eqb_neq _ _) Hm), Hsig.
      cbn [fst snd failed app]. split; [reflexivity|].
      intros mail [Hin | []]. discriminate Hin.
    + rewrite (handler_after_signature verify env req logged Hm Hsig), Hp.
      cbn [fst snd failed]. split; [reflexivity|].
      intros mail Hin. apply in_app_iff in Hin as [Hin | [Hin | []]];
        [|discriminate Hin].
      unfold verifySignature in Hsig.
      destruct (JS.truthy_opt (hookSecret env));
        [destruct (Webhook_new _); [discriminate|];
         destruct (verify _ _ _); injection Hsig as <-
        |injection Hsig as <-]; cbn [In] in Hin; intuition discriminate.
Qed.

End Handler.

Lemma verification_failure_does_not_abort_witness :
  fst (handler EmailSample.newWebhook EmailSample.rejects EmailSample.parse
               EmailSample.deliver EmailSample.env EmailSample.post)
  = fst (handler EmailSample.newWebhook EmailSample.accepts EmailSample.parse
                 EmailSample.deliver EmailSample.env EmailSample.post).
Proof.
  apply (verification_failure_does_not_abort
           EmailSample.newWebhook EmailSample.parse EmailSample.deliver
           EmailSample.rejects EmailSample.accepts EmailSample.env EmailSample.post
           tt "No matching signature found").
  - vm_compute. discriminate.
  - reflexivity.
  - reflexivity.
  - reflexivity.
  - reflexivity.
Defined.

(** The sample request, its signature rejected: 200, the provider's
    result, one log line for the signature, the mail, one for the send. *)
Example rejected_signature_still_mails :
  handler EmailSample.newWebhook EmailSample.rejects EmailSample.parse
          EmailSample.deliver EmailSample.env EmailSample.post
  = ({| status := 200; headers := jsonHeaders; resp_body := BodySendResult "re_123" |},
     [ConsoleError "Webhook verification failed:" "No matching signature found";
      Send (mailFor EmailSample.env EmailSample.payload);
      ConsoleLog "Verification email sent successfully:" "re_123"]).
Proof. reflexivity. Qed.

(** The pre-flight request: the CORS headers, no body, nothing else done. *)
Example preflight_gets_cors_headers :
  handler EmailSample.newWebhook EmailSample.rejects EmailSample.parse
          EmailSample.deliver EmailSample.env EmailSample.preflight
  = ({| status := 200; headers := corsHeaders; resp_body := BodyNull |}, []).
Proof. reflexivity. Qed.

Example sample_link :
  verificationLink (SUPABASE_URL EmailSample.env) (email_data EmailSample.payload)
  = "https://albay.supabase.co/auth/v1/verify?token=9f3ab2&type=signup&redirect_to=https://wander.example/home".
Proof. reflexivity. Qed.

End EmailFacts.


(** ** More on the preference scorer *)

Module ScorerMore.
Import Modal Sample MoreNotions.

Lemma lowerChar_idem (c : ascii) : JS.lowerChar (JS.lowerChar c) = JS.lowerChar c.
Proof. destruct c as [[] [] [] [] [] [] [] []]; reflexivity. Qed.

Lemma toLowerCase_idem (s : string) : JS.toLowerCase (JS.toLowerCase s) = JS.toLowerCase s.
Proof.
  induction s as [|c s IH]; [reflexivity|].
  cbn [JS.toLowerCase]. rewrite lowerChar_idem, IH. reflexivity.
Qed.

Lemma truthy_toLowerCase (s : string) : JS.truthy (JS.toLowerCase s) = JS.truthy s.
Proof. destruct s; reflexivity. Qed.

Lemma filter_map_length {A B} (f : B -> bool) (h : A -> B) (l : list A) :
  length (List.filter f (map h l)) = length (List.filter (fun a => f (h a)) l).
Proof.
  induction l as [|a l IH]; [reflexivity|].
  cbn [map List.filter]. destruct (f (h a)); cbn [length]; rewrite IH; reflexivity.
Qed.

Lemma existsb_map {A B} (f : B -> bool) (h : A -> B) (l : list A) :
  existsb f (map h l) = existsb (fun a => f (h a)) l.
Proof.
  induction l as [|a l IH]; [reflexivity|].
  cbn [map existsb]. rewrite IH. reflexivity.
Qed.

Lemma existsb_pointwise {A} (f h : A -> bool) (l : list A) :
  (forall a, f a = h a) -> existsb f l = existsb h l.
Proof.
  intros E. induction l as [|a l IH]; [reflexivity|].
  cbn [existsb]. rewrite E, IH. reflexivity.
Qed.

Lemma activityMatches_lower_activities (acts : list string) (spot : TouristSpot) :
  ofLength (activityMatches (map JS.toLowerCase acts) spot)
  = ofLength (activityMatches acts spot).
Proof.
  unfold ofLength, activityMatches. rewrite filter_map_length. do 3 f_equal.
  apply List.filter_ext. intros a. apply existsb_pointwise. intros cat.
  rewrite toLowerCase_idem. reflexivity.
Qed.

Lemma activityMatches_lower_tags (acts : list string) (spot : TouristSpot) :
  activityMatches acts (lowerSpot spot) = activityMatches acts spot.
Proof.
  unfold activityMatches, lowerSpot; cbn [category].
  apply List.filter_ext. intros a. rewrite existsb_map. apply existsb_pointwise. intros cat.
  rewrite toLowerCase_idem. reflexivity.
Qed.

(** The activity and budget blocks compare without case: lower-casing the
    activity and budget strings of the preferences, or the category tags
    and the budget tier of the spot, changes no score. *)
Theorem score_ignores_case_of_activities_and_budget
        (p : UserPreferences) (spot : TouristSpot) (g : Rng) :
  scoreSpot (Some (lowerPrefs p)) spot g = scoreSpot (Some p) spot g
  /\ scoreSpot (Some p) (lowerSpot spot) g = scoreSpot (Some p) spot g.
Proof.
  split.
  - unfold scoreSpot, lowerPrefs;
      cbn [preferredActivities budgetRange sceneryType hiddenGems].
    destruct (preferredActivities p) as [acts|], (budgetRange p) as [range|];
      cbn [fmap option_fmap option_map];
      rewrite ?activityMatches_lower_activities, ?truthy_toLowerCase, ?toLowerCase_idem;
      reflexivity.
  - unfold scoreSpot.
    destruct (preferredActivities p) as [acts|];
      rewrite ?activityMatches_lower_tags;
      unfold lowerSpot, sceneryMatches;
      cbn [category budget_level scenery_type is_hidden_gem rating];
      destruct (budget_level spot) as [level|];
      cbn [fmap option_fmap option_map];
      rewrite ?truthy_toLowerCase, ?toLowerCase_idem; reflexivity.
Qed.

(** The scenery block compares with case. *)
Example scenery_match_is_case_sensitive :
  let wants s := {| preferredActivities := None; budgetRange := None;
                    sceneryType := Some [s]; hiddenGems := None |} in
  let coast := {| id := "s1"; name := "s1"; description := None; location := "Albay";
                  municipality := None; category := []; image_url := None;
                  latitude := None; longitude := None; rating := None;
                  budget_level := None; scenery_type := ["Coastal"];
                  spot_type := []; is_hidden_gem := false |} in
  fst (scoreSpot (Some (wants "Coastal")) coast halves) == 2
  /\ fst (scoreSpot (Some (wants "coastal")) coast halves) == 0.
Proof. split; vm_compute; reflexivity. Qed.

Lemma scoreAll_with_preferences_keeps_rng
      (p : UserPreferences) (l : list TouristSpot) (g : Rng) :
  snd (scoreAll (Some p) l g) = g.
Proof.
  induction l as [|s l IH]; [reflexivity|].
  cbn [scoreAll scoreSpot]. destruct (scoreAll (Some p) l g) as [scored g2].
  cbn [snd] in *. exact IH.
Qed.

(** Scoring a list without preferences reads the generator once per spot,
    in list order: spot number [i] gets draw number [next + i], and the
    generator ends [length l] draws further.  With preferences it is not
    read at all. *)
Theorem scoring_reads_one_draw_per_spot (l : list TouristSpot) (g : Rng) :
  map score (fst (scoreAll None l g)) =
    map (fun i => draws g (next g + i)%nat) (seq 0 (length l))
  /\ next (snd (scoreAll None l g)) = (next g + length l)%nat
  /\ draws (snd (scoreAll None l g)) = draws g
  /\ (forall p, snd (scoreAll (Some p) l g) = g).
Proof.
  split; [|split; [|split]]; [| | |intros p; apply scoreAll_with_preferences_keeps_rng].
  - revert g; induction l as [|s l IH]; intros g; [reflexivity|].
    cbn [scoreAll scoreSpot Math_random].
    specialize (IH {| draws := draws g; next := S (next g) |}).
    destruct (scoreAll None l _) as [scored g2]. cbn [fst map score length seq] in *.
    rewrite Nat.add_0_r, IH, <- seq_shift, map_map. cbn [draws next]. f_equal.
    apply map_ext. intros i. f_equal. lia.
  - revert g; induction l as [|s l IH]; intros g; [cbn; lia|].
    cbn [scoreAll scoreSpot Math_random].
    specialize (IH {| draws := draws g; next := S (next g) |}).
    destruct (scoreAll None l _) as [scored g2]. cbn [snd length next] in *. lia.
  - revert g; induction l as [|s l IH]; intros g; [reflexivity|].
    cbn [scoreAll scoreSpot Math_random].
    specialize (IH {| draws := draws g; next := S (next g) |}).
    destruct (scoreAll None l _) as [scored g2]. cbn [snd draws] in *. exact IH.
Qed.

End ScorerMore.


(** ** More on the top-8 selector *)

Module SelectorMore.
Import Modal Sample.




Lemma scoredSpots_length (st : State) (g : Rng) :
  length (fst (scoredSpots st g)) = min 8 (length (spots st)).
Proof.
  rewrite SelectorFacts.scoredSpots_eq, length_map, length_take.
  rewrite (Permutation_length (SelectorFacts.sort_perm _)), SelectorFacts.scoreAll_length.
  reflexivity.
Qed.


Lemma scoredSpots_NoDup (st : State) (g : Rng) :
  List.NoDup (map id (spots st)) -> NoDup (fst (scoredSpots st g)).
Proof.
  intros Hnd. rewrite SelectorFacts.scoredSpots_eq.
  set (scored := fst (scoreAll (userPreferences st) (spots st) g)).
  rewrite <- firstn_map. eapply sublist_NoDup; [|apply sublist_take].
  rewrite (Permutation_map _ (SelectorFacts.sort_perm scored)).
  rewrite <- (map_map spot id). unfold scored.
  rewrite SelectorFacts.scoreAll_spots. apply NoDup_ListNoDup. exact Hnd.
Qed.

(** When the fetched spots carry distinct identifiers, auto-select selects
    exactly min(8, number of spots) of them. *)
Theorem auto_select_selects_exactly_min_8 (st : State) (g : Rng) :
  List.NoDup (map id (spots st)) ->
  size (selectedSpots (fst (fst (handleAutoSelect st g)))) = min 8 (length (spots st)).
Proof.
  intros Hnd. rewrite SelectorFacts.handleAutoSelect_selected.
  rewrite (size_list_to_set _ (scoredSpots_NoDup st g Hnd)). apply scoredSpots_length.
Qed.

Lemma auto_select_selects_exactly_min_8_witness :
  size (selectedSpots (fst (fst (handleAutoSelect
          (stateOf "trip" [spotOf "a" [] (Some 5); spotOf "b" [] (Some 3)]
                   ∅ (Some noPreferences)) halves)))) = 2%nat.
Proof.
  apply (auto_select_selects_exactly_min_8
           (stateOf "trip" [spotOf "a" [] (Some 5); spotOf "b" [] (Some 3)]
                    ∅ (Some noPreferences)) halves).
  cbn. repeat constructor; cbn; intuition discriminate.
Defined.

End SelectorMore.


(** ** More on the selection set and the creation handler *)

Module CreationMore.
Import Modal Sample.

(** Toggles commute: clicking two cards in either order selects the same
    spots (clicking the same card twice included). *)
Theorem toggles_commute (a b : string) (st : State) :
  toggleSpot a (toggleSpot b st) = toggleSpot b (toggleSpot a st).
Proof.
  destruct st as [n ld sp sel fs up].
  unfold toggleSpot, setSelectedSpots; cbn [selectedSpots itineraryName loading spots
                                             fetchingSpots userPreferences].
  f_equal. apply set_eq. intros y. rewrite !CreationFacts.toggled_elem.
  destruct (decide (y = a)) as [Hya | Hya], (decide (y = b)) as [Hyb | Hyb],
    (decide (a ∈ sel)), (decide (b ∈ sel)), (decide (y ∈ sel));
    subst; tauto.
Qed.

(** A toggle changes the number of selected identifiers by exactly one:
    down when the identifier was selected, up when it was not. *)
Theorem toggle_changes_size_by_one (a : string) (st : State) :
  (a ∈ selectedSpots st ->
     S (size (selectedSpots (toggleSpot a st))) = size (selectedSpots st))
  /\ (a ∉ selectedSpots st ->
        size (selectedSpots (toggleSpot a st)) = S (size (selectedSpots st))).
Proof.
  unfold toggleSpot, setSelectedSpots; cbn [selectedSpots]. split.
  - intros Hin. rewrite (bool_decide_eq_true_2 _ Hin).
    assert (Hsub : ({[a]} : gset string) ⊆ selectedSpots st)
      by (apply singleton_subseteq_l; exact Hin).
    rewrite (size_difference _ _ Hsub), size_singleton.
    apply subseteq_size in Hsub. rewrite size_singleton in Hsub. lia.
  - intros Hout. rewrite (bool_decide_eq_false_2 _ Hout).
    rewrite size_union by (apply disjoint_singleton_r; exact Hout).
    rewrite size_singleton. lia.
Qed.

(** Submitting again.  After a failed insert the same row is inserted
    again, whatever the store answers this time; after a successful one
    the name is empty, so the second submission is turned down with the
    name notification and inserts nothing. *)
Theorem resubmission (userId : string) (first second : ItineraryRow -> bool) (st : State) :
  JS.trim (itineraryName st) <> "" ->
  selectedSpots st <> ∅ ->
  let row := Notions.createdRow userId st in
  let st1 := fst (handleCreateItinerary userId first st) in
  (first row = true ->
     exists rest, snd (handleCreateItinerary userId second st1) = Insert row :: rest)
  /\ (first row = false ->
        handleCreateItinerary userId second st1
        = (st1, [ToastError "Please enter an itinerary name"])).
Proof.
  intros Hname Hsel row st1. subst row st1.
  rewrite (CreationFacts.handleCreateItinerary_valid userId first st Hname Hsel).
  cbv zeta. split; intros Hfirst; rewrite Hfirst; cbn [fst].
  - rewrite (CreationFacts.handleCreateItinerary_valid userId second
               (setLoading false (setLoading true st)) Hname Hsel).
    cbv zeta.
    change (Notions.createdRow userId (setLoading false (setLoading true st)))
      with (Notions.createdRow userId st).
    destruct (second (Notions.createdRow userId st)); eexists; reflexivity.
  - reflexivity.
Qed.

Lemma resubmission_witness :
  let st := stateOf "trip" [spotOf "a" ["Nature"] None] {[ "a" ]} None in
  exists rest,
    snd (handleCreateItinerary "u1" (fun _ => false)
           (fst (handleCreateItinerary "u1" (fun _ => true) st)))
    = Insert (Notions.createdRow "u1" st) :: rest.
Proof.
  cbv zeta.
  pose proof (resubmission "u1" (fun _ => true) (fun _ => false)
                (stateOf "trip" [spotOf "a" ["Nature"] None] {[ "a" ]} None)) as H.
  cbv zeta in H. destruct H as [Hfail _].
  - vm_compute. discriminate.
  - intros H. apply (f_equal size) in H. vm_compute in H. discriminate.
  - apply Hfail. reflexivity.
Defined.

(** A name with spaces around it is accepted and stored with them. *)
Example padded_name_is_stored_as_typed :
  exists rest,
    snd (handleCreateItinerary "u1" (fun _ => false)
           (stateOf "  Bicol trip " [spotOf "a" [] None] {[ "a" ]} None))
    = Insert {| user_id := "u1"; row_name := "  Bicol trip ";
                row_spots := [spotOf "a" [] None]; selected_categories := [] |} :: rest.
Proof. eexists. vm_compute. reflexivity. Qed.

Lemma filter_filter {A} (f h : A -> bool) (l : list A) :
  List.filter f (List.filter h l) = List.filter (fun a => h a && f a) l.
Proof.
  induction l as [|a l IH]; [reflexivity|].
  cbn [List.filter]. destruct (h a); cbn [List.filter andb]; rewrite IH; reflexivity.
Qed.

Lemma arrayIncludes_app (l1 l2 : list string) (x : string) :
  JS.arrayIncludes (l1 ++ l2) x = JS.arrayIncludes l1 x || JS.arrayIncludes l2 x.
Proof. unfold JS.arrayIncludes. apply existsb_app. Qed.

(** Building a set on top of [acc] appends to [acc] the set built from the
    elements not in [acc]. *)
Lemma fold_setAdd_split (n : nat) :
  forall (xs acc : list string),
    (length xs <= n)%nat ->
    fold_left JS.setAdd xs acc =
      (acc ++ JS.spreadSet (List.filter (fun y => negb (JS.arrayIncludes acc y)) xs))%list.
Proof.
  unfold JS.spreadSet. induction n as [|n IH]; intros xs acc Hlen.
  - destruct xs; [|cbn in Hlen; lia]. cbn. rewrite app_nil_r. reflexivity.
  - destruct xs as [|x r]; [cbn; rewrite app_nil_r; reflexivity|].
    cbn [length] in Hlen. cbn [fold_left List.filter].
    destruct (JS.arrayIncludes acc x) eqn:E; cbn [negb].
    + replace (JS.setAdd acc x) with acc
        by (unfold JS.setAdd; rewrite E; reflexivity).
      apply IH. lia.
    + replace (JS.setAdd acc x) with (acc ++ [x])%list
        by (unfold JS.setAdd; rewrite E; reflexivity).
      rewrite (IH r (acc ++ [x])%list) by lia. cbn [fold_left].
      change (JS.setAdd [] x) with [x].
      rewrite (IH (List.filter (fun y => negb (JS.arrayIncludes acc y)) r) [x]).
      * rewrite filter_filter, <- app_assoc. do 3 f_equal.
        apply List.filter_ext. intros y.
        rewrite arrayIncludes_app, negb_orb. reflexivity.
      * pose proof (List.filter_length_le
                      (fun y => negb (JS.arrayIncludes acc y)) r). lia.
Qed.

(** The order of a spread set, as in the category list of the inserted row
    ([[...new Set(tags)]]): each tag stands where it first occurs.  The
    first tag comes first and what follows is the spread set of the other
    tags; a list without duplicates is returned as it is; spreading twice
    changes nothing. *)
Theorem spreadSet_keeps_first_occurrences (x : string) (xs : list string) :
  JS.spreadSet (x :: xs) =
    x :: JS.spreadSet (List.filter (fun y => negb (String.eqb y x)) xs)
  /\ (List.NoDup (x :: xs) -> JS.spreadSet (x :: xs) = x :: xs)
  /\ JS.spreadSet (JS.spreadSet (x :: xs)) = JS.spreadSet (x :: xs).
Proof.
  assert (Hcons : forall a l,
             JS.spreadSet (a :: l) =
               a :: JS.spreadSet (List.filter (fun y => negb (String.eqb y a)) l)).
  { intros a l. unfold JS.spreadSet at 1. cbn [fold_left].
    change (JS.setAdd [] a) with [a].
    rewrite (fold_setAdd_split (length l) l [a]) by lia. cbn [app]. do 2 f_equal.
    apply List.filter_ext. intros y. unfold JS.arrayIncludes. cbn [existsb].
    rewrite orb_false_r. reflexivity. }
  assert (Hfix : forall l, List.NoDup l -> JS.spreadSet l = l).
  { induction l as [|a l IH]; intros Hnd; [reflexivity|].
    apply List.NoDup_cons_iff in Hnd as [Ha Hnd]. rewrite Hcons. f_equal.
    rewrite <- (IH Hnd) at 2. f_equal.
    clear IH Hnd. induction l as [|b l IHl]; [reflexivity|].
    cbn [List.filter]. destruct (String.eqb b a) eqn:E.
    - apply String.eqb_eq in E. subst b. exfalso. apply Ha. left. reflexivity.
    - cbn [negb]. f_equal. apply IHl. intros Hin. apply Ha. right. exact Hin. }
  split; [apply Hcons|]. split; [apply Hfix|].
  apply Hfix, CreationFacts.spreadSet_NoDup.
Qed.

(** Tags in first-occurrence order, across spots. *)
Example categories_in_first_occurrence_order :
  JS.spreadSet ["Hiking"; "Food"; "Hiking"; "Nature"; "Food"] = ["Hiking"; "Food"; "Nature"].
Proof. reflexivity. Qed.

End CreationMore.


(** ** Fetching and rendering in the modal *)

Module ViewFacts.
Import Modal ModalView Sample.

(** The two fetches started when the modal opens touch different cells:
    in whichever order their answers arrive, the state and the
    notifications are the same. *)
Theorem fetches_commute (d : option Profile) (resp : SpotsResponse) (st : State) :
  fetchSpots resp (fetchUserPreferences d st)
  = (fetchUserPreferences d (fst (fetchSpots resp st)), snd (fetchSpots resp st)).
Proof.
  unfold fetchSpots, fetchUserPreferences.
  destruct d as [d|], (error resp); reflexivity.
Qed.

Lemma NoDup_map_filter {A B} (h : A -> B) (f : A -> bool) (l : list A) :
  List.NoDup (map h l) -> List.NoDup (map h (List.filter f l)).
Proof.
  induction l as [|a l IH]; intros Hnd; [constructor|].
  cbn [map] in Hnd. apply List.NoDup_cons_iff in Hnd as [Ha Hnd].
  cbn [List.filter]. destruct (f a); [|apply IH, Hnd].
  cbn [map]. constructor; [|apply IH, Hnd].
  intros Hin. apply Ha. apply in_map_iff in Hin as [x [Hx Hin]].
  apply filter_In in Hin as [Hin _]. apply in_map_iff. eauto.
Qed.

Lemma selected_filter_ids (st : State) :
  NoDup (map id (spots st)) ->
  NoDup (map id (List.filter (fun s => bool_decide (id s ∈ selectedSpots st)) (spots st)))
  /\ (forall i,
        i ∈ (list_to_set
               (map id (List.filter (fun s => bool_decide (id s ∈ selectedSpots st))
                                    (spots st))) : gset string)
        <-> i ∈ selectedSpots st /\ exists s, In s (spots st) /\ id s = i).
Proof.
  intros Hnd. split.
  - apply NoDup_ListNoDup, NoDup_map_filter, NoDup_ListNoDup, Hnd.
  - intros i. rewrite elem_of_list_to_set, list_elem_of_In, in_map_iff. split.
    + intros [s [<- Hs]]. apply filter_In in Hs as [Hs Hsel].
      apply bool_decide_eq_true in Hsel. split; [exact Hsel | eauto].
    + intros [Hsel [s [Hs <-]]]. exists s. split; [reflexivity|].
      apply filter_In. split; [exact Hs | apply bool_decide_eq_true; exact Hsel].
Qed.

(** The cards of the auto tab against the counter shown with them, for
    fetched spots with distinct identifiers: the cards are the spots that
    creation would persist, there are never more cards than the counter
    says, and there are as many exactly when every selected identifier
    belongs to a fetched spot. *)
Theorem cards_against_counter (st : State) (userId : string) :
  List.NoDup (map id (spots st)) ->
  (selectedSpots st <> ∅ -> selectedCards st = row_spots (Notions.createdRow userId st))
  /\ (length (selectedCards st) <= size (selectedSpots st))%nat
  /\ (length (selectedCards st) = size (selectedSpots st)
      <-> forall i, i ∈ selectedSpots st -> exists s, In s (spots st) /\ id s = i).
Proof.
  intros Hnd. apply NoDup_ListNoDup in Hnd.
  destruct (selected_filter_ids st Hnd) as [Hids Hmem].
  set (cards := List.filter (fun s => bool_decide (id s ∈ selectedSpots st)) (spots st)) in *.
  set (X := list_to_set (map id cards) : gset string) in *.
  assert (Hsize : size X = length cards)
    by (unfold X; rewrite (size_list_to_set _ Hids), length_map; reflexivity).
  assert (Hsub : X ⊆ selectedSpots st) by (intros i Hi; apply Hmem in Hi as [Hi _]; exact Hi).
  unfold selectedCards. fold cards.
  destruct (0 <? size (selectedSpots st))%nat eqn:E.
  - split; [reflexivity|]. rewrite <- Hsize. split; [apply subseteq_size, Hsub|]. split.
    + intros Heq i Hi.
      assert (HX : X ≡ selectedSpots st)
        by (apply set_subseteq_size_equiv; [exact Hsub | lia]).
      apply HX, Hmem in Hi as [_ Hi]. exact Hi.
    + intros Hall. apply Nat.le_antisymm; [apply subseteq_size, Hsub|].
      apply subseteq_size. intros i Hi. apply Hmem. split; [exact Hi | apply Hall, Hi].
  - apply Nat.ltb_ge in E.
    assert (Hz : size (selectedSpots st) = 0%nat) by lia.
    assert (He : selectedSpots st = ∅)
      by (apply leibniz_equiv, size_empty_iff; exact Hz).
    split; [intros Hne; contradiction|]. rewrite Hz. cbn [length].
    split; [lia|]. split; [|reflexivity].
    intros _ i Hi. rewrite He in Hi. apply not_elem_of_empty in Hi. destruct Hi.
Qed.

Lemma cards_against_counter_witness :
  let st := stateOf "trip" [spotOf "a" [] None; spotOf "b" [] None] {[ "a"; "zz" ]} None in
  (length (selectedCards st) <= size (selectedSpots st))%nat.
Proof.
  cbv zeta.
  apply (cards_against_counter
           (stateOf "trip" [spotOf "a" [] None; spotOf "b" [] None] {[ "a"; "zz" ]} None)
           "u1").
  cbn. repeat constructor; cbn; intuition discriminate.
Defined.

(** One card for a counter of two: the identifier [zz] is selected but no
    fetched spot carries it. *)
Example counter_overstates_cards :
  let st := stateOf "trip" [spotOf "a" [] None; spotOf "b" [] None] {[ "a"; "zz" ]} None in
  length (selectedCards st) = 1%nat /\ size (selectedSpots st) = 2%nat.
Proof. split; vm_compute; reflexivity. Qed.

(** A click on a card of the manual tab flips the checkbox of that card --
    and of any other card carrying the same identifier -- and of no other
    card. *)
Theorem click_flips_the_cards_of_that_identifier (s s' : TouristSpot) (st : State) :
  checked (toggleSpot (id s) st) s' =
    if String.eqb (id s') (id s) then negb (checked st s') else checked st s'.
Proof.
  unfold checked, toggleSpot, setSelectedSpots; cbn [selectedSpots].
  pose proof (CreationFacts.toggled_elem (id s) (id s') (selectedSpots st)) as Ht.
  destruct (String.eqb_spec (id s') (id s)) as [E | E].
  - rewrite E in *. destruct (decide (id s ∈ selectedSpots st)) as [Hin | Hout].
    + rewrite (bool_decide_eq_true_2 (id s ∈ selectedSpots st) Hin). cbn [negb].
      apply bool_decide_eq_false_2. rewrite (bool_decide_eq_true_2 _ Hin) in Ht. tauto.
    + rewrite (bool_decide_eq_false_2 (id s ∈ selectedSpots st) Hout). cbn [negb].
      apply bool_decide_eq_true_2. rewrite (bool_decide_eq_false_2 _ Hout) in Ht. tauto.
  - apply bool_decide_ext. tauto.
Qed.

End ViewFacts.


(** ** The itinerary map *)

Module MapFacts.
Import ItineraryMap MapSample MoreNotions.

Lemma validSpots_effect (spots : list Spot) (st : State) :
  validSpots (effect spots st) =
    List.filter (fun spot => notNull (latitude spot) && notNull (longitude spot)) spots.
Proof.
  unfold effect.
  destruct (List.filter _ spots) as [|first rest]; [reflexivity|].
  destruct (latitude first), (longitude first); try reflexivity.
  destruct (truthy _ && truthy _); reflexivity.
Qed.

Lemma truthy_usable (x : option Q) :
  truthy x = true <-> exists v, usable x v.
Proof.
  unfold truthy, usable. destruct x as [v|].
  - rewrite negb_true_iff. split.
    + intros E. exists v. split; [reflexivity|]. intros H.
      apply Qeq_bool_iff in H. congruence.
    + intros [w [[= <-] H]]. destruct (Qeq_bool v 0) eqn:E; [|reflexivity].
      apply Qeq_bool_iff in E. contradiction.
  - split; [discriminate | intros [v [H _]]; discriminate].
Qed.

Lemma omap_length_le {A B} (f : A -> option B) (l : list A) :
  (length (omap f l) <= length l)%nat.
Proof.
  induction l as [|a l IH]; [reflexivity|].
  cbn [omap list_omap]. destruct (f a); cbn [length]; lia.
Qed.

(** After the effect, the valid spots are the given spots that have both
    coordinates, in order.  A marker is drawn for a spot exactly when both
    of its coordinates are present and different from zero, at those
    coordinates and keyed by the spot's identifier: a valid spot on the
    equator or on the prime meridian gets no marker. *)
Theorem markers_after_effect (spots : list Spot) (st : State) :
  validSpots (effect spots st) =
    List.filter (fun spot => notNull (latitude spot) && notNull (longitude spot)) spots
  /\ (forall m, In m (markers (effect spots st)) <->
         exists spot lat lng,
           In spot spots /\ usable (latitude spot) lat /\ usable (longitude spot) lng
           /\ m = {| key := id spot; position := (lat, lng) |})
  /\ (length (markers (effect spots st)) <= length (validSpots (effect spots st)))%nat
  /\ (length (validSpots (effect spots st)) <= length spots)%nat.
Proof.
  split; [apply validSpots_effect|]. split; [|split].
  - intros m. unfold markers. rewrite validSpots_effect.
    rewrite <- list_elem_of_In, list_elem_of_omap. split.
    + intros [spot [Hin Hm]]. apply list_elem_of_In, filter_In in Hin as [Hin _].
      destruct (latitude spot) as [lat|] eqn:Elat; [|discriminate].
      destruct (longitude spot) as [lng|] eqn:Elng; [|discriminate].
      destruct (truthy (Some lat) && truthy (Some lng)) eqn:Et; [|discriminate].
      apply andb_true_iff in Et as [Hlat Hlng].
      apply truthy_usable in Hlat as [v1 [[= <-] H1]], Hlng as [v2 [[= <-] H2]].
      injection Hm as <-. exists spot, lat, lng. rewrite Elat, Elng.
      repeat split; try assumption; reflexivity.
    + intros [spot [lat [lng [Hin [[Elat H1] [[Elng H2] ->]]]]]]. exists spot. split.
      * apply list_elem_of_In, filter_In. split; [exact Hin|].
        rewrite Elat, Elng. reflexivity.
      * rewrite Elat, Elng.
        rewrite (proj2 (truthy_usable (Some lat))) by (exists lat; split; [reflexivity|exact H1]).
        rewrite (proj2 (truthy_usable (Some lng))) by (exists lng; split; [reflexivity|exact H2]).
        reflexivity.
  - apply omap_length_le.
  - rewrite validSpots_effect. apply List.filter_length_le.
Qed.

Lemma filter_lacking (l : list Spot) :
  Forall lacksCoordinate l ->
  List.filter (fun spot => notNull (latitude spot) && notNull (longitude spot)) l = [].
Proof.
  induction 1 as [|s l [H | H] _ IH]; [reflexivity| |];
    cbn [List.filter]; rewrite H; cbn [notNull andb];
    rewrite ?andb_false_r; exact IH.
Qed.

(** The centre after the effect.  It moves to the first spot that has both
    coordinates, provided neither is zero; when that spot has a zero
    coordinate, or when no spot has both coordinates (the empty list
    included), the centre stays where it was -- it is not put back to the
    initial one. *)
Theorem center_after_effect (spots : list Spot) (st : State) :
  (Forall lacksCoordinate spots -> center (effect spots st) = center st)
  /\ (forall pre first post lat lng,
        spots = (pre ++ first :: post)%list ->
        Forall lacksCoordinate pre ->
        latitude first = Some lat ->
        longitude first = Some lng ->
        (~ lat == 0 -> ~ lng == 0 -> center (effect spots st) = (lat, lng))
        /\ (lat == 0 \/ lng == 0 -> center (effect spots st) = center st)).
Proof.
  split.
  - intros Hall. unfold effect. rewrite (filter_lacking _ Hall). reflexivity.
  - intros pre first post lat lng -> Hpre Elat Elng.
    unfold effect. rewrite List.filter_app, (filter_lacking _ Hpre). cbn [app List.filter].
    rewrite Elat, Elng. cbn [notNull andb]. rewrite Elat, Elng. cbn [truthy]. split.
    + intros H1 H2.
      destruct (Qeq_bool lat 0) eqn:E1; [apply Qeq_bool_iff in E1; contradiction|].
      destruct (Qeq_bool lng 0) eqn:E2; [apply Qeq_bool_iff in E2; contradiction|].
      reflexivity.
    + intros [H | H]; apply Qeq_bool_iff in H; rewrite H; cbn [negb andb];
        rewrite ?andb_false_r; reflexivity.
Qed.

(** Running the effect again on the same spots changes nothing. *)
Theorem effect_idempotent (spots : list Spot) (st : State) :
  effect spots (effect spots st) = effect spots st.
Proof.
  unfold effect.
  destruct (List.filter _ spots) as [|first rest]; [reflexivity|].
  destruct (latitude first), (longitude first); try reflexivity.
  destruct (truthy _ && truthy _); reflexivity.
Qed.

(** A spot on the equator: kept as valid, no marker, and the map stays
    centred on Albay; the next spot does not get the centre either. *)
Example equator_spot_has_no_marker :
  let st := effect [at_ "e" (Some 0) (Some 123); at_ "m" (Some 13) (Some 124)] initial in
  map id (validSpots st) = ["e"; "m"]
  /\ markers st = [{| key := "m"; position := (13, 124) |}]
  /\ center st = center initial.
Proof. cbv zeta. repeat split. Qed.

End MapFacts.


(** ** More on the e-mail function *)

Module EmailMore.
Import Email MoreNotions.

Arguments status {SendResult} r.
Arguments headers {SendResult} r.
Arguments resp_body {SendResult} r.

Section Handler.

Context {SendResult Webhook : Type}.
Variable Webhook_new : string -> string + Webhook.
Variable Webhook_verify : Webhook -> string -> Headers -> option string.
Variable JSON_parse : string -> string + HookPayload.
Variable resend_emails_send : Mail -> string + SendResult.

(** Whatever the request, the answer has status 200 or 500 and carries the
    two CORS headers; a 500 answer has an error body; and at most one mail
    is handed to the provider. *)
Theorem every_response_is_200_or_500_with_cors (env : Env) (req : Request) :
  let run := handler Webhook_new Webhook_verify JSON_parse resend_emails_send env req in
  (status (fst run) = 200%nat \/ status (fst run) = 500%nat)
  /\ (forall h, In h corsHeaders -> In h (headers (fst run)))
  /\ (status (fst run) = 500%nat -> exists message, resp_body (fst run) = BodyError message)
  /\ (mailsSent (snd run) <= 1)%nat.
Proof.
  cbv zeta. unfold handler, verifySignature, failed.
  destruct (String.eqb (method req) "OPTIONS");
    [cbn; repeat split; auto; intros; discriminate|].
  destruct (JS.truthy_opt (hookSecret env));
    [destruct (Webhook_new _) as [m | wh];
     [|destruct (Webhook_verify wh (body req) (req_headers req))]|];
    try destruct (JSON_parse (body req)) as [m' | p];
    try destruct (resend_emails_send _) as [m'' | r];
    cbn; repeat split; eauto; intros; discriminate.
Qed.

(** A 200 answer to a request other than the pre-flight means that the
    payload parsed, that exactly one mail -- the one for that payload --
    was handed to the provider, and that the body is what the provider
    returned. *)
Theorem ok_means_mailed (env : Env) (req : Request) :
  let run := handler Webhook_new Webhook_verify JSON_parse resend_emails_send env req in
  method req <> "OPTIONS" ->
  status (fst run) = 200%nat ->
  exists p r,
    JSON_parse (body req) = inr p
    /\ resend_emails_send (mailFor env p) = inr r
    /\ resp_body (fst run) = BodySendResult r
    /\ In (Send (mailFor env p)) (snd run)
    /\ mailsSent (snd run) = 1%nat.
Proof.
  cbv zeta. intros Hm. unfold handler, verifySignature, failed.
  rewrite (proj2 (String.eqb_neq _ _) Hm).
  destruct (JS.truthy_opt (hookSecret env));
    [destruct (Webhook_new _) as [m | wh];
     [|destruct (Webhook_verify wh (body req) (req_headers req))]|];
    try destruct (JSON_parse (body req)) as [m' | p];
    try (fold (mailFor env p); destruct (resend_emails_send (mailFor env p)) as [m'' | r] eqn:Es);
    cbn; intros Hst; try discriminate Hst;
    exists p, r; repeat split; auto.
Qed.

End Handler.

Lemma ok_means_mailed_witness :
  exists p r,
    EmailSample.parse (body EmailSample.post) = inr p
    /\ EmailSample.deliver (mailFor EmailSample.env p) = inr r
    /\ resp_body (fst (handler EmailSample.newWebhook EmailSample.rejects EmailSample.parse
                               EmailSample.deliver EmailSample.env EmailSample.post))
       = BodySendResult r
    /\ In (Send (mailFor EmailSample.env p))
          (snd (handler EmailSample.newWebhook EmailSample.rejects EmailSample.parse
                        EmailSample.deliver EmailSample.env EmailSample.post))
    /\ mailsSent (snd (handler EmailSample.newWebhook EmailSample.rejects EmailSample.parse
                               EmailSample.deliver EmailSample.env EmailSample.post))
       = 1%nat.
Proof.
  apply (ok_means_mailed EmailSample.newWebhook EmailSample.rejects EmailSample.parse
           EmailSample.deliver EmailSample.env EmailSample.post).
  - vm_compute. discriminate.
  - reflexivity.
Defined.

(** Without a secret -- the variable unset, or set to the empty string --
    the signature is not checked at all: no verifier is built, so the
    answer and the effects do not depend on how verifiers behave, and no
    line about a failed check is logged. *)
Theorem without_secret_no_signature_check
        {SendResult W1 W2 : Type}
        (new1 : string -> string + W1) (verify1 : W1 -> string -> Headers -> option string)
        (new2 : string -> string + W2) (verify2 : W2 -> string -> Headers -> option string)
        (JSON_parse : string -> string + HookPayload)
        (resend_emails_send : Mail -> string + SendResult)
        (env : Env) (req : Request) :
  JS.truthy_opt (hookSecret env) = false ->
  handler new1 verify1 JSON_parse resend_emails_send env req
  = handler new2 verify2 JSON_parse resend_emails_send env req
  /\ signatureWarnings (snd (handler new1 verify1 JSON_parse resend_emails_send env req)) = [].
Proof.
  intros Hs. unfold handler, verifySignature, failed. rewrite Hs.
  split; [reflexivity|].
  destruct (String.eqb (method req) "OPTIONS"); [reflexivity|].
  destruct (JSON_parse (body req)) as [m | p]; [reflexivity|].
  destruct (resend_emails_send _); reflexivity.
Qed.

Lemma without_secret_no_signature_check_witness :
  let env := {| SEND_VERIFICATION_EMAIL_HOOK_SECRET := Some "";
                SUPABASE_URL := Some "https://albay.supabase.co" |} in
  handler EmailSample.newWebhook EmailSample.rejects EmailSample.parse
          EmailSample.deliver env EmailSample.post
  = handler EmailSample.newWebhook EmailSample.accepts EmailSample.parse
            EmailSample.deliver env EmailSample.post.
Proof.
  cbv zeta.
  apply (without_secret_no_signature_check
           EmailSample.newWebhook EmailSample.rejects
           EmailSample.newWebhook EmailSample.accepts
           EmailSample.parse EmailSample.deliver
           {| SEND_VERIFICATION_EMAIL_HOOK_SECRET := Some "";
              SUPABASE_URL := Some "https://albay.supabase.co" |} EmailSample.post).
  reflexivity.
Defined.

End EmailMore.


(** ** From auto-select to the inserted row *)

Module FlowFacts.
Import Modal Sample.



(** Scores 3 and 5: auto-select ranks [b] before [a], the row lists [a]
    before [b], as fetched. *)
Example inserted_row_is_in_fetched_order :
  let st := stateOf "trip" [spotOf "a" [] (Some 3); spotOf "b" [] (Some 5)]
                    ∅ (Some noPreferences) in
  fst (scoredSpots st halves) = ["b"; "a"]
  /\ map id (row_spots (Notions.createdRow "u1" (fst (fst (handleAutoSelect st halves)))))
     = ["a"; "b"].
Proof. split; vm_compute; reflexivity. Qed.

End FlowFacts.


(** ** UTF-16 names *)

Module Utf16Facts.
Import Utf16.

Lemma trimStart_blank16 (s : jsString) : ModalFull.blank s -> trimStart s = [].
Proof.
  induction 1 as [|c s Hc _ IH]; [reflexivity|].
  cbn [trimStart]. rewrite Hc. exact IH.
Qed.

Lemma trimEnd_empty16 (s : jsString) : trimEnd s = [] -> ModalFull.blank s.
Proof.
  induction s as [|c s IH]; cbn [trimEnd]; intros H; [constructor|].
  destruct (trimEnd s) eqn:E; [|discriminate].
  destruct (isWhiteSpace c) eqn:Hc; [|discriminate].
  constructor; [exact Hc | apply IH; reflexivity].
Qed.

Lemma trimStart_suffix16 (s : jsString) :
  exists pre, s = (pre ++ trimStart s)%list /\ ModalFull.blank pre.
Proof.
  induction s as [|c s [pre [E F]]]; cbn [trimStart].
  - exists []. split; [reflexivity | constructor].
  - destruct (isWhiteSpace c) eqn:Hc.
    + exists (c :: pre). split; [cbn [app]; f_equal; exact E | constructor; assumption].
    + exists []. split; [reflexivity | constructor].
Qed.

(** [trim] yields the empty string exactly on the strings made of white
    space, the empty one included. *)
Lemma trim_empty_iff16 (s : jsString) : trim s = [] <-> ModalFull.blank s.
Proof.
  unfold trim. split.
  - intros H. apply trimEnd_empty16 in H.
    destruct (trimStart_suffix16 s) as [pre [E F]]. rewrite E.
    apply Forall_app. split; assumption.
  - intros H. rewrite (trimStart_blank16 s H). reflexivity.
Qed.

Lemma truthy_trim16 (s : jsString) : truthy (trim s) = false <-> ModalFull.blank s.
Proof.
  rewrite <- trim_empty_iff16. destruct (trim s); split; intros H;
    try reflexivity; discriminate.
Qed.

(** On characters below U+0100 the two readings of white space agree, and
    so do the two readings of [trim]. *)
Lemma isWhiteSpace_ofAscii (c : ascii) :
  isWhiteSpace (Ascii.N_of_ascii c) = JS.isWhiteSpace c.
Proof. destruct c as [[] [] [] [] [] [] [] []]; reflexivity. Qed.

Lemma trimStart_ofString (s : string) :
  trimStart (ofString s) = ofString (JS.trimStart s).
Proof.
  induction s as [|c s IH]; [reflexivity|].
  change (ofString (String c s)) with (Ascii.N_of_ascii c :: ofString s).
  cbn [trimStart JS.trimStart]. rewrite isWhiteSpace_ofAscii.
  destruct (JS.isWhiteSpace c); [exact IH | reflexivity].
Qed.

Lemma trimEnd_ofString (s : string) :
  trimEnd (ofString s) = ofString (JS.trimEnd s).
Proof.
  induction s as [|c s IH]; [reflexivity|].
  change (ofString (String c s)) with (Ascii.N_of_ascii c :: ofString s).
  cbn [trimEnd JS.trimEnd]. rewrite IH, isWhiteSpace_ofAscii.
  destruct (JS.trimEnd s) as [|c' r]; [destruct (JS.isWhiteSpace c)|]; reflexivity.
Qed.

Lemma trim_ofString (s : string) : trim (ofString s) = ofString (JS.trim s).
Proof. unfold trim, JS.trim. rewrite trimStart_ofString, trimEnd_ofString. reflexivity. Qed.

End Utf16Facts.


(** ** The creation handler on UTF-16 names *)

Module FullCreationFacts.
Import ModalFull.

(** The row that the handler builds from a state. *)
Lemma createItinerary_accepts (userId : string) (insertFails : ItineraryRow -> bool)
      (st : State) :
  ~ blank (itineraryName st) ->
  selectedSpots st <> ∅ ->
  exists row,
    row_name row = itineraryName st
    /\ user_id row = userId
    /\ row_spots row =
         List.filter (fun s => bool_decide (Modal.id s ∈ selectedSpots st)) (spots st)
    /\ handleCreateItinerary userId insertFails st =
         if insertFails row then
           (setLoading false (setLoading true st),
            [Insert row; ToastError "Failed to create itinerary"])
         else
           (setSelectedSpots ∅ (setItineraryName [] (setLoading false (setLoading true st))),
            [Insert row; ToastSuccess "Itinerary created successfully!";
             OnOpenChange false; OnSuccess]).
Proof.
  intros Hname Hsel. unfold handleCreateItinerary.
  destruct (Utf16.truthy (Utf16.trim (itineraryName st))) eqn:Et;
    [|apply Utf16Facts.truthy_trim16 in Et; contradiction].
  cbn [negb]. destruct (size (selectedSpots st) =? 0)%nat eqn:E;
    [apply CreationFacts.size_zero_empty in E; contradiction|].
  exists {| user_id := userId;
            row_name := itineraryName st;
            row_spots :=
              List.filter (fun s => bool_decide (Modal.id s ∈ selectedSpots st)) (spots st);
            selected_categories :=
              JS.spreadSet
                (flat_map Modal.category
                   (List.filter (fun s => bool_decide (Modal.id s ∈ selectedSpots st))
                                (spots st))) |}.
  repeat split.
Qed.

(** C5: with a name that is empty or made of white space only -- any of
    the code points that [trim] strips -- or with nothing selected, the
    handler leaves the state as it was and does one thing only, an error
    notification; no insert is issued. *)
Theorem blank_name_or_empty_selection_is_rejected
        (userId : string) (insertFails : ItineraryRow -> bool) (st : State) :
  blank (itineraryName st) \/ selectedSpots st = ∅ ->
  (exists msg, handleCreateItinerary userId insertFails st = (st, [ToastError msg]))
  /\ (forall row, ~ In (Insert row) (snd (handleCreateItinerary userId insertFails st))).
Proof.
  intros H.
  assert (Hrej : exists msg,
             handleCreateItinerary userId insertFails st = (st, [ToastError msg])).
  { unfold handleCreateItinerary.
    destruct (Utf16.truthy (Utf16.trim (itineraryName st))) eqn:Et; cbn [negb];
      [|eexists; reflexivity].
    destruct H as [Hblank | Hempty].
    - apply Utf16Facts.truthy_trim16 in Hblank. congruence.
    - rewrite (proj2 (CreationFacts.size_zero_empty _) Hempty). eexists; reflexivity. }
  split; [exact Hrej|]. destruct Hrej as [msg ->]. cbn [snd In].
  intros row [Hin | []]. discriminate.
Qed.

(** An ideographic space (U+3000) and a space for a name: rejected. *)
Lemma blank_name_or_empty_selection_is_rejected_witness :
  let st := FullSample.stateOf [12288%N; 32%N] [Sample.spotOf "a" [] None] {[ "a" ]} None in
  exists msg, handleCreateItinerary "u1" (fun _ => false) st = (st, [ToastError msg]).
Proof.
  cbv zeta.
  apply (blank_name_or_empty_selection_is_rejected "u1" (fun _ => false)
           (FullSample.stateOf [12288%N; 32%N] [Sample.spotOf "a" [] None] {[ "a" ]} None)).
  left. repeat constructor.
Defined.

(** Each of the 25 white-space code points, alone, is a blank name. *)
Example every_white_space_code_point_is_blank :
  forallb (fun c => negb (Utf16.truthy (Utf16.trim [c])))
          [9; 10; 11; 12; 13; 32; 160; 5760; 8192; 8193; 8194; 8195; 8196; 8197; 8198;
           8199; 8200; 8201; 8202; 8232; 8233; 8239; 8287; 12288; 65279]%N = true
  /\ forallb (fun c => Utf16.truthy (Utf16.trim [c]))
             [8; 14; 31; 33; 133; 6158; 8203; 8204; 8288; 12289; 65278]%N = true.
Proof. split; reflexivity. Qed.

(** An insert is issued exactly when the name is not blank and something
    is selected; the row then carries the name as typed, white space at
    its ends included, and the user's identifier. *)
Theorem insert_exactly_when_named_and_selected
        (userId : string) (insertFails : ItineraryRow -> bool) (st : State) :
  ((exists row, In (Insert row) (snd (handleCreateItinerary userId insertFails st)))
   <-> ~ blank (itineraryName st) /\ selectedSpots st <> ∅)
  /\ (forall row, In (Insert row) (snd (handleCreateItinerary userId insertFails st)) ->
        row_name row = itineraryName st /\ user_id row = userId).
Proof.
  destruct (Utf16.truthy (Utf16.trim (itineraryName st))) eqn:Et.
  - assert (Hnb : ~ blank (itineraryName st)).
    { intros Hb. apply Utf16Facts.truthy_trim16 in Hb. congruence. }
    destruct (decide (selectedSpots st = ∅)) as [He | He].
    + assert (Hrej : snd (handleCreateItinerary userId insertFails st)
                     = [ToastError "Please select at least one spot"]).
      { unfold handleCreateItinerary.
        rewrite Et, (proj2 (CreationFacts.size_zero_empty _) He). reflexivity. }
      rewrite Hrej. split.
      * split.
        -- intros [row [Hin | []]]. discriminate Hin.
        -- intros [_ Hne]. contradiction.
      * intros row [Hin | []]. discriminate Hin.
    + destruct (createItinerary_accepts userId insertFails st Hnb He)
        as [row0 [Hn [Hu [_ Hrun]]]].
      rewrite Hrun. split.
      * split; [intros _; split; assumption|].
        intros _. exists row0. destruct (insertFails row0); left; reflexivity.
      * intros row Hin.
        assert (Hrow : row = row0).
        { destruct (insertFails row0); cbn [snd In] in Hin;
            intuition (try discriminate; congruence). }
        subst row. split; assumption.
  - assert (Hb : blank (itineraryName st)) by (apply Utf16Facts.truthy_trim16; exact Et).
    assert (Hrej : snd (handleCreateItinerary userId insertFails st)
                   = [ToastError "Please enter an itinerary name"]).
    { unfold handleCreateItinerary. rewrite Et. reflexivity. }
    rewrite Hrej. split.
    + split.
      * intros [row [Hin | []]]. discriminate Hin.
      * intros [Hnb _]. contradiction.
    + intros row [Hin | []]. discriminate Hin.
Qed.

(** On a name whose characters are all below U+0100 the handler of [Modal]
    and this one take the same branch: one rejects exactly when the other
    does. *)
Lemma rejects_like_Modal (st : Modal.State) :
  Utf16.truthy (Utf16.trim (itineraryName (ofModal st)))
  = JS.truthy (JS.trim (Modal.itineraryName st)).
Proof.
  unfold ofModal; cbn [itineraryName]. rewrite Utf16Facts.trim_ofString.
  destruct (JS.trim (Modal.itineraryName st)); reflexivity.
Qed.

End FullCreationFacts.


(** ** The scorer with binary64 scores *)

Module FullScorerFacts.
Import Modal ModalFull.

(** The preference score is the activity points plus what the other three
    blocks give. *)
Lemma preferenceScore_split (p : UserPreferences) (spot : TouristSpot) :
  preferenceScore p spot =
    (match preferredActivities p with
     | Some acts => 3 * Z.of_nat (length (activityMatches acts spot))
     | None => 0
     end + preferenceScore (withActivities None p) spot)%Z.
Proof.
  unfold preferenceScore, withActivities;
    cbn [preferredActivities budgetRange sceneryType hiddenGems].
  destruct (preferredActivities p), (sceneryType p),
    (budgetRange p) as [range|], (budget_level spot) as [level|];
    try destruct (JS.truthy range && JS.truthy level);
    try destruct (String.eqb _ _);
    destruct (default false (hiddenGems p) && is_hidden_gem spot); lia.
Qed.

Lemma preferenceScore_others (acts : option (list string)) (p : UserPreferences)
      (spot : TouristSpot) :
  preferenceScore (withActivities None (withActivities acts p)) spot
  = preferenceScore (withActivities None p) spot.
Proof. reflexivity. Qed.

Lemma preferenceScore_nonneg (p : UserPreferences) (spot : TouristSpot) :
  (0 <= preferenceScore p spot)%Z.
Proof.
  unfold preferenceScore.
  destruct (preferredActivities p), (sceneryType p),
    (budgetRange p) as [range|], (budget_level spot) as [level|];
    try destruct (JS.truthy range && JS.truthy level);
    try destruct (String.eqb _ _);
    destruct (default false (hiddenGems p) && is_hidden_gem spot); lia.
Qed.

(** The score of a spot that gets no rating boost is the preference score
    itself. *)
Lemma scoreSpot_unrated (p : UserPreferences) (spot : TouristSpot) (g : Rng) :
  unrated spot -> fst (scoreSpot (Some p) spot g) == inject_Z (preferenceScore p spot).
Proof.
  unfold unrated, scoreSpot; cbn [fst]. destruct (rating spot) as [r|]; [|reflexivity].
  intros Hr. rewrite (proj2 (Qeq_bool_iff r 0) Hr). reflexivity.
Qed.

(** C1 (as amended): the activity block adds 3 for every preferred
    activity that some category tag of the spot contains, compared
    without case -- an activity counts once however many tags contain it.
    With the other factors fixed, one more preferred activity raises the
    score accumulated before the rating block by exactly 3 when a tag
    contains it and leaves it unchanged otherwise.  The score returned is
    that integer for a spot without rating boost, which therefore rises by
    exactly 3; for a rated spot it is the binary64 sum of that integer and
    half the rating. *)
Theorem activity_points_count_matched_activities
        (p : UserPreferences) (acts : list string) (spot : TouristSpot) (g : Rng) :
  preferredActivities p = Some acts ->
  (preferenceScore p spot =
     3 * Z.of_nat (length (activityMatches acts spot))
     + preferenceScore (withActivities None p) spot)%Z
  /\ (forall a, In a (activityMatches acts spot)
                <-> In a acts /\ Notions.matchesCategory a spot)
  /\ (forall a, Notions.matchesCategory a spot ->
        preferenceScore (withActivities (Some (a :: acts)) p) spot
        = (preferenceScore p spot + 3)%Z)
  /\ (forall a, ~ Notions.matchesCategory a spot ->
        preferenceScore (withActivities (Some (a :: acts)) p) spot
        = preferenceScore p spot)
  /\ (forall q, unrated spot ->
        fst (scoreSpot (Some q) spot g) == inject_Z (preferenceScore q spot))
  /\ (forall q r, rating spot = Some r -> ~ r == 0 ->
        fst (scoreSpot (Some q) spot g)
        = Binary64.fl (inject_Z (preferenceScore q spot) + Binary64.fl (r / 2)))
  /\ (forall a, unrated spot -> Notions.matchesCategory a spot ->
        fst (scoreSpot (Some (withActivities (Some (a :: acts)) p)) spot g)
        == fst (scoreSpot (Some p) spot g) + 3).
Proof.
  intros Hacts.
  assert (Hsplit : (preferenceScore p spot =
                      3 * Z.of_nat (length (activityMatches acts spot))
                      + preferenceScore (withActivities None p) spot)%Z)
    by (rewrite (preferenceScore_split p spot), Hacts; reflexivity).
  assert (Hhit : forall a, Notions.matchesCategory a spot ->
             preferenceScore (withActivities (Some (a :: acts)) p) spot
             = (preferenceScore p spot + 3)%Z).
  { intros a Ha. rewrite preferenceScore_split, preferenceScore_others, Hsplit.
    cbn [withActivities preferredActivities].
    rewrite (ScorerFacts.activityMatches_cons_hit a acts spot Ha). cbn [length]. lia. }
  split; [exact Hsplit|]. split; [intros a; apply ScorerFacts.activityMatches_In|].
  split; [exact Hhit|]. split; [|split; [|split]].
  - intros a Ha. rewrite preferenceScore_split, preferenceScore_others, Hsplit.
    cbn [withActivities preferredActivities].
    rewrite (ScorerFacts.activityMatches_cons_miss a acts spot Ha). reflexivity.
  - intros q Hu. apply scoreSpot_unrated, Hu.
  - intros q r Hr Hnz. unfold scoreSpot; cbn [fst]. rewrite Hr.
    destruct (Qeq_bool r 0) eqn:E; [apply Qeq_bool_iff in E; contradiction | reflexivity].
  - intros a Hu Ha. rewrite !scoreSpot_unrated by exact Hu.
    rewrite (Hhit a Ha), inject_Z_plus. reflexivity.
Qed.

Lemma activity_points_count_matched_activities_witness :
  preferredActivities Sample.hiker = Some ["hiking"]
  /\ (preferenceScore Sample.hiker Sample.spotA =
        3 * Z.of_nat (length (activityMatches ["hiking"] Sample.spotA))
        + preferenceScore (withActivities None Sample.hiker) Sample.spotA)%Z.
Proof.
  split; [reflexivity|].
  apply (activity_points_count_matched_activities
           Sample.hiker ["hiking"] Sample.spotA Sample.halves).
  reflexivity.
Defined.

(** One activity contained in two tags is two hits in the specification's
    count, yet the code adds 3 once: the score is 3, not 6. *)
Lemma one_activity_two_tags_counterexample :
  let p := withActivities (Some ["hi"]) Sample.noPreferences in
  let s := Sample.spotOf "s1" ["Hiking"; "Hill"] None in
  Notions.hitCount ["hi"] s = 2%nat
  /\ fst (scoreSpot (Some p) s Sample.halves) == 3
  /\ preferenceScore p s = 3%Z
  /\ preferenceScore p s <> (3 * Z.of_nat (Notions.hitCount ["hi"] s))%Z.
Proof.
  cbv zeta. split; [reflexivity|]. split; [vm_compute; reflexivity|].
  split; [reflexivity|]. vm_compute. discriminate.
Qed.

(** The end-to-end example of the specification: 3 + 2 + 2 + 4/2 = 9, with
    no rounding. *)
Example score_hiker_spotA_binary64 :
  fst (scoreSpot (Some Sample.hiker) Sample.spotA Sample.halves) == 9.
Proof. vm_compute. reflexivity. Qed.

(** A spot rated 4.3 with the tag Hiking: preferring hiking raises its
    score from 2.15 to 5.15 as binary64 computes them, a rise of 3 + 2^-51. *)
Example rated_spot_rise_is_rounded :
  let s := FullSample.rated "s1" ["Hiking"] false (43 # 10) in
  let none := withActivities (Some []) Sample.noPreferences in
  let hiking := withActivities (Some ["hiking"]) Sample.noPreferences in
  fst (scoreSpot (Some hiking) s Sample.halves)
  - fst (scoreSpot (Some none) s Sample.halves) == 3 + (1 # 2 ^ 51).
Proof. vm_compute. reflexivity. Qed.

(** The preference score is never negative and never more than 3 for each
    preferred activity, 2 for each scenery tag of the spot, and 4 for the
    budget and hidden-gem blocks together; a spot without rating boost
    scores exactly that integer. *)
Theorem preference_score_is_bounded (p : UserPreferences) (spot : TouristSpot) :
  (0 <= preferenceScore p spot)%Z
  /\ (preferenceScore p spot <=
        3 * Z.of_nat (length (default [] (preferredActivities p)))
        + 2 * Z.of_nat (length (scenery_type spot)) + 4)%Z.
Proof.
  split; [apply preferenceScore_nonneg|].
  unfold preferenceScore.
  assert (Hs : forall wanted,
             (length (sceneryMatches wanted spot) <= length (scenery_type spot))%nat)
    by (intros wanted; apply List.filter_length_le).
  assert (Ha : forall acts, (length (activityMatches acts spot) <= length acts)%nat)
    by (intros acts; apply List.filter_length_le).
  destruct (preferredActivities p) as [acts|], (sceneryType p) as [wanted|],
    (budgetRange p) as [range|], (budget_level spot) as [level|];
    try destruct (JS.truthy range && JS.truthy level);
    try destruct (String.eqb _ _);
    destruct (default false (hiddenGems p) && is_hidden_gem spot);
    try specialize (Hs wanted); try specialize (Ha acts);
    try change (default [] (Some acts)) with acts;
    try change (default [] (@None (list string))) with (@nil string);
    cbn [length]; lia.
Qed.

(** An empty string among the preferred activities is contained in every
    tag, so it earns 3 points of preference score for every spot that has
    a tag at all. *)
Theorem blank_activity_earns_3_on_any_tagged_spot
        (p : UserPreferences) (acts : list string) (spot : TouristSpot) :
  category spot <> [] ->
  Notions.matchesCategory "" spot
  /\ preferenceScore (withActivities (Some ("" :: acts)) p) spot
     = (preferenceScore (withActivities (Some acts) p) spot + 3)%Z.
Proof.
  intros Hcat.
  assert (Hm : Notions.matchesCategory "" spot).
  { destruct (category spot) as [|cat cats] eqn:E; [contradiction|].
    exists cat, "", (JS.toLowerCase cat). rewrite E. split; [left|]; reflexivity. }
  split; [exact Hm|].
  rewrite !(preferenceScore_split (withActivities (Some _) p)), !preferenceScore_others.
  cbn [withActivities preferredActivities].
  rewrite (ScorerFacts.activityMatches_cons_hit _ _ _ Hm). cbn [length]. lia.
Qed.

Lemma blank_activity_earns_3_on_any_tagged_spot_witness :
  preferenceScore (withActivities (Some [""]) Sample.noPreferences) Sample.spotA
  = (preferenceScore (withActivities (Some []) Sample.noPreferences) Sample.spotA + 3)%Z.
Proof.
  apply (blank_activity_earns_3_on_any_tagged_spot Sample.noPreferences [] Sample.spotA).
  discriminate.
Defined.

(** Where nothing rounds the two readings of the scorer agree: without
    preferences, and for every spot without rating boost. *)
Lemma scoreSpot_like_Modal (prefs : option UserPreferences) (spot : TouristSpot) (g : Rng) :
  (prefs = None \/ unrated spot) ->
  fst (scoreSpot prefs spot g) == fst (Modal.scoreSpot prefs spot g)
  /\ snd (scoreSpot prefs spot g) = snd (Modal.scoreSpot prefs spot g).
Proof.
  intros H. split; [|destruct prefs; reflexivity].
  destruct prefs as [p|]; [|reflexivity].
  destruct H as [H | Hu]; [discriminate|].
  rewrite (scoreSpot_unrated p spot g Hu), ScorerFacts.scoreSpot_blocks.
  unfold unrated in Hu.
  assert (Hr : ratingScore spot == 0).
  { unfold ratingScore. destruct (rating spot) as [r|]; [|reflexivity].
    rewrite (proj2 (Qeq_bool_iff r 0) Hu). reflexivity. }
  rewrite Hr. unfold preferenceScore, activityScore, budgetScore, sceneryScore,
    hiddenGemScore, ofLength.
  destruct (preferredActivities p), (sceneryType p),
    (budgetRange p) as [range|], (budget_level spot) as [level|];
    try destruct (JS.truthy range && JS.truthy level);
    try destruct (String.eqb _ _);
    destruct (default false (hiddenGems p) && is_hidden_gem spot);
    cbn [andb]; rewrite ?inject_Z_plus, ?inject_Z_mult; ring.
Qed.

End FullScorerFacts.


(** ** The top-8 selector with binary64 scores *)

Module FullSelectorFacts.
Import Modal ModalFull.

Lemma scoreAll_keeps_spots (prefs : option UserPreferences) (l : list TouristSpot) (g : Rng) :
  map spot (fst (scoreAll prefs l g)) = l.
Proof.
  revert g; induction l as [|s l IH]; intros g; [reflexivity|].
  cbn [scoreAll]. destruct (scoreSpot prefs s g) as [sc g1].
  specialize (IH g1). destruct (scoreAll prefs l g1) as [scored g2].
  cbn [fst map spot] in *. rewrite IH. reflexivity.
Qed.

Lemma scoreAll_keeps_length (prefs : option UserPreferences) (l : list TouristSpot) (g : Rng) :
  length (fst (scoreAll prefs l g)) = length l.
Proof. rewrite <- (scoreAll_keeps_spots prefs l g) at 2. rewrite length_map. reflexivity. Qed.

(** With preferences, each spot is paired with the score [scoreSpot] gives
    it. *)
Lemma scoreAll_scores_with_preferences (p : UserPreferences) (l : list TouristSpot) (g : Rng) :
  map score (fst (scoreAll (Some p) l g)) = map (fun s => fst (scoreSpot (Some p) s g)) l
  /\ snd (scoreAll (Some p) l g) = g.
Proof.
  induction l as [|s l [IH1 IH2]]; [split; reflexivity|].
  cbn [scoreAll]. change (scoreSpot (Some p) s g) with (fst (scoreSpot (Some p) s g), g).
  cbv iota beta. destruct (scoreAll (Some p) l g) as [scored g2].
  cbn [fst snd map score] in *. rewrite IH1. split; [reflexivity | exact IH2].
Qed.

(** Without preferences, spot number [i] is paired with the draw that the
    call number [i] of [scoreSpot] makes. *)
Lemma scoreAll_scores_without_preferences (l : list TouristSpot) (g : Rng) :
  map score (fst (scoreAll None l g)) =
    map (fun i => draws g (next g + i)%nat) (seq 0 (length l))
  /\ next (snd (scoreAll None l g)) = (next g + length l)%nat.
Proof.
  revert g; induction l as [|s l IH]; intros g; [split; [reflexivity | cbn; lia]|].
  cbn [scoreAll scoreSpot Math_random].
  destruct (IH {| draws := draws g; next := S (next g) |}) as [IH1 IH2].
  destruct (scoreAll None l _) as [scored g2]. cbn [fst snd map score length seq] in *.
  split; [|cbn [next] in IH2; lia].
  rewrite Nat.add_0_r, IH1, <- seq_shift, map_map. cbn [draws next]. f_equal.
  apply map_ext. intros i. f_equal. lia.
Qed.

Lemma scoredSpots_unfold (st : State) (g : Rng) :
  fst (scoredSpots st g) =
    map (fun item => id (spot item))
        (take 8 (sort (fst (scoreAll (userPreferences st) (spots st) g)))).
Proof.
  unfold scoredSpots. destruct (scoreAll _ _ _) as [scored g']. reflexivity.
Qed.

Lemma handleAutoSelect_selection (st : State) (g : Rng) :
  selectedSpots (fst (fst (handleAutoSelect st g))) = list_to_set (fst (scoredSpots st g)).
Proof.
  unfold handleAutoSelect. destruct (scoredSpots st g) as [ids g']. reflexivity.
Qed.

(** C3: auto-select pairs every spot with the score that [scoreSpot]
    returns for it (with preferences) or with the random draw of its call
    (without).  It keeps at most min(8, number of spots) identifiers, each
    the identifier of a spot of the list, and they are the identifiers of
    the first 8 entries of the scored spots arranged by descending score
    with equal scores in input order -- the only such arrangement -- so no
    spot left out scores higher than a chosen one. *)
Theorem auto_select_takes_the_8_highest_scores (st : State) (g : Rng) :
  let scored := fst (scoreAll (userPreferences st) (spots st) g) in
  let ids := fst (scoredSpots st g) in
  let st' := fst (fst (handleAutoSelect st g)) in
  map spot scored = spots st
  /\ (forall p, userPreferences st = Some p ->
        map score scored = map (fun s => fst (scoreSpot (Some p) s g)) (spots st))
  /\ (userPreferences st = None ->
        map score scored =
          map (fun i => fst (scoreSpot None (nth i (spots st) (Sample.spotOf "" [] None))
                                       {| draws := draws g; next := (next g + i)%nat |}))
              (seq 0 (length (spots st))))
  /\ length ids = min 8 (length (spots st))
  /\ (size (selectedSpots st') <= min 8 (length (spots st)))%nat
  /\ (forall i, i ∈ selectedSpots st' <-> In i ids)
  /\ (forall i, In i ids -> exists s, In s (spots st) /\ id s = i)
  /\ (exists ranked,
        Permutation ranked scored
        /\ StronglySorted Notions.descending ranked
        /\ (forall q, Notions.withScore q ranked = Notions.withScore q scored)
        /\ ids = map (fun item => id (spot item)) (take 8 ranked)
        /\ (forall a b, In a (take 8 ranked) -> In b (drop 8 ranked) ->
                        score b <= score a))
  /\ (forall ranked,
        StronglySorted Notions.descending ranked ->
        (forall q, Notions.withScore q ranked = Notions.withScore q scored) ->
        ids = map (fun item => id (spot item)) (take 8 ranked)).
Proof.
  intros scored ids st'.
  assert (Hids : ids = map (fun item => id (spot item)) (take 8 (sort scored)))
    by apply scoredSpots_unfold.
  assert (Hsel : selectedSpots st' = list_to_set ids)
    by apply handleAutoSelect_selection.
  assert (Hlen : length ids = min 8 (length (spots st))).
  { rewrite Hids, length_map, length_take.
    rewrite (Permutation_length (SelectorFacts.sort_perm scored)).
    unfold scored. rewrite scoreAll_keeps_length. reflexivity. }
  split; [apply scoreAll_keeps_spots|].
  split; [intros p Hp; unfold scored; rewrite Hp;
          apply scoreAll_scores_with_preferences|].
  split; [intros Hp; unfold scored; rewrite Hp;
          apply scoreAll_scores_without_preferences|].
  split; [exact Hlen|].
  split; [rewrite Hsel, <- Hlen; apply SelectorFacts.size_list_to_set_le|].
  split; [intros i; rewrite Hsel, elem_of_list_to_set, list_elem_of_In; reflexivity|].
  split.
  { intros i Hi. rewrite Hids in Hi. apply in_map_iff in Hi as [item [<- Hitem]].
    exists (spot item). split; [|reflexivity].
    assert (Hin : In item scored).
    { apply (Permutation_in _ (SelectorFacts.sort_perm scored)).
      rewrite <- (take_drop 8 (sort scored)). apply in_or_app. left. exact Hitem. }
    rewrite <- (scoreAll_keeps_spots (userPreferences st) (spots st) g).
    apply in_map. exact Hin. }
  split.
  { exists (sort scored).
    split; [apply SelectorFacts.sort_perm|]. split; [apply SelectorFacts.sort_sorted|].
    split; [intros q; apply SelectorFacts.sort_stable|]. split; [exact Hids|].
    apply SelectorFacts.sorted_app_dominates. rewrite take_drop.
    apply SelectorFacts.sort_sorted. }
  intros ranked Hs Hq. rewrite Hids. f_equal. f_equal.
  apply SelectorFacts.stable_descending_unique;
    [apply SelectorFacts.sort_sorted | exact Hs |].
  intros q. rewrite SelectorFacts.sort_stable, Hq. reflexivity.
Qed.

(** Two spots whose exact scores are both 2.28: a hidden gem rated 0.56
    (2 + 0.28) and a spot rated 4.56 (2.28).  In binary64 the first sum is
    2.2800000000000002, so the hidden gem ranks first wherever it stands
    in the list; it is not a tie. *)
Example rounded_scores_break_an_exact_tie :
  let gem := FullSample.rated "gem" [] true (56 # 100) in
  let top := FullSample.rated "top" [] false (456 # 100) in
  fst (scoredSpots (FullSample.stateOf [] [top; gem] ∅ (Some FullSample.gems)) Sample.halves)
  = ["gem"; "top"]
  /\ fst (scoredSpots (FullSample.stateOf [] [gem; top] ∅ (Some FullSample.gems)) Sample.halves)
     = ["gem"; "top"]
  /\ fst (scoreSpot (Some FullSample.gems) top Sample.halves)
     < fst (scoreSpot (Some FullSample.gems) gem Sample.halves).
Proof. repeat split; vm_compute; reflexivity. Qed.

End FullSelectorFacts.


(** ** The e-mail function when the provider turns the mail down *)

Module ProviderFacts.
Import Email.

(** C9: a well-formed request whose mail the provider turns down.  The
    call resolves to [{ data: null, error }] and does not throw, so the
    handler logs the send as successful and answers 200 with that object;
    the answer with status 500 and [{ error: message }] is given only on
    the path through [catch]. *)
Theorem provider_refusal_is_answered_200 :
  handler EmailSample.newWebhook EmailSample.accepts EmailSample.parse Resend.refuse
          EmailSample.env EmailSample.post
  = ({| status := 200; headers := jsonHeaders;
        resp_body := BodySendResult Resend.refused |},
     [Send (mailFor EmailSample.env EmailSample.payload);
      ConsoleLog "Verification email sent successfully:" Resend.refused]).
Proof. reflexivity. Qed.

End ProviderFacts.


(** ** Rounding to binary64 *)

Module Binary64Facts.
Import Binary64.

Lemma two_pow_pos (e : Z) : 0 < 2 ^ e.
Proof. apply Qpower_0_lt. reflexivity. Qed.

Lemma two_pow_le (a b : Z) : (a <= b)%Z -> 2 ^ a <= 2 ^ b.
Proof. intros H. apply Qpower_le_compat_l; [exact H | discriminate]. Qed.

Lemma ilog2_le (q : Q) : 0 < q -> 2 ^ ilog2 q <= q.
Proof.
  intros Hq. unfold ilog2.
  set (a := Z.log2 (Qnum q)). set (b := Z.log2 (Zpos (Qden q))).
  destruct (Qle_bool (2 ^ (a - b)) q) eqn:E; [apply Qle_bool_iff; exact E|].
  assert (Hn : (0 < Qnum q)%Z).
  { unfold Qlt in Hq. simpl in Hq. lia. }
  destruct (Z.log2_spec (Qnum q) Hn) as [Ha _]. fold a in Ha.
  destruct (Z.log2_spec (Zpos (Qden q)) (Pos2Z.is_pos _)) as [_ Hb]. fold b in Hb.
  assert (Ha0 : (0 <= a)%Z) by apply Z.log2_nonneg.
  assert (Hb0 : (0 <= b)%Z) by apply Z.log2_nonneg.
  replace (a - b - 1)%Z with (a - (b + 1))%Z by lia.
  rewrite Qpower_minus by discriminate.
  assert (HA : 2 ^ a <= inject_Z (Qnum q)).
  { rewrite <- (Zpower_Qpower 2 a Ha0). rewrite <- Zle_Qle. exact Ha. }
  assert (HB : inject_Z (Zpos (Qden q)) <= 2 ^ (b + 1)).
  { rewrite <- (Zpower_Qpower 2 (b + 1)) by lia. rewrite <- Zle_Qle.
    replace (b + 1)%Z with (Z.succ b) by lia. lia. }
  pose proof (two_pow_pos a) as HA0. pose proof (two_pow_pos (b + 1)) as HB0.
  assert (Hd : 0 < inject_Z (Zpos (Qden q))) by reflexivity.
  destruct q as [n d]. cbn [Qnum Qden] in *.
  rewrite (Qmake_Qdiv n d).
  apply Qle_shift_div_l; [exact Hd|].
  unfold Qdiv. rewrite <- Qmult_assoc, (Qmult_comm (/ _)), Qmult_assoc.
  apply Qle_shift_div_r; [exact HB0|]. nra.
Qed.

Lemma roundHalfEven_floor (q : Q) :
  (Qfloor q <= roundHalfEven q <= Qfloor q + 1)%Z.
Proof.
  unfold roundHalfEven. destruct (_ ?= _)%Q; try destruct (Z.even _); lia.
Qed.

Lemma roundHalfEven_ge_1 (q : Q) : 1 <= q -> (1 <= roundHalfEven q)%Z.
Proof.
  intros H. pose proof (roundHalfEven_floor q) as [Hf _].
  pose proof (Qfloor_resp_le (inject_Z 1) q H) as H1. rewrite Qfloor_Z in H1. lia.
Qed.

Lemma roundHalfEven_le_m1 (q : Q) : q <= -1 -> (roundHalfEven q <= -1)%Z.
Proof.
  intros H. pose proof (Qfloor_resp_le q (inject_Z (-1)) H) as H1.
  rewrite Qfloor_Z in H1.
  destruct (Z.eq_dec (Qfloor q) (-1)%Z) as [E | E].
  - unfold roundHalfEven. cbv zeta. rewrite E.
    pose proof (Qfloor_le q) as Hl. rewrite E in Hl.
    change (inject_Z (-1)) with (-1) in *.
    destruct (Qcompare (q - -1) (1 # 2)) eqn:C;
      [apply Qeq_alt in C; lra | lia | apply Qgt_alt in C; lra].
  - pose proof (roundHalfEven_floor q) as [_ Hf]. lia.
Qed.

Lemma lastPlace_le (x : Q) : 2 ^ (-1074) <= Qabs x -> 2 ^ lastPlace x <= Qabs x.
Proof.
  intros H. unfold lastPlace.
  assert (Hpos : 0 < Qabs x).
  { apply Qlt_le_trans with (2 ^ (-1074)); [apply two_pow_pos | exact H]. }
  destruct (Z.max_spec (ilog2 (Qabs x) - 52) (-1074)) as [[_ ->] | [_ ->]]; [exact H|].
  apply Qle_trans with (2 ^ ilog2 (Qabs x)); [apply two_pow_le; lia | apply ilog2_le, Hpos].
Qed.

Lemma fl_value (x : Q) :
  ~ x == 0 -> fl x == inject_Z (roundHalfEven (x / 2 ^ lastPlace x)) * 2 ^ lastPlace x.
Proof.
  intros H. unfold fl. destruct (Qeq_bool x 0) eqn:E.
  - apply Qeq_bool_iff in E. contradiction.
  - apply Qred_correct.
Qed.

Lemma fl_zero (x : Q) : x == 0 -> fl x == 0.
Proof. intros H. unfold fl. rewrite (proj2 (Qeq_bool_iff x 0) H). reflexivity. Qed.

Lemma fl_pos (x : Q) : 2 ^ (-1074) <= x -> 0 < fl x.
Proof.
  intros H. pose proof (two_pow_pos (-1074)) as H0.
  assert (Hx : 0 < x) by lra.
  assert (Habs : Qabs x == x) by (apply Qabs_pos; lra).
  rewrite fl_value by lra.
  pose proof (two_pow_pos (lastPlace x)) as He.
  assert (Hle : 2 ^ lastPlace x <= x).
  { rewrite <- Habs at 2. apply lastPlace_le. rewrite Habs. exact H. }
  assert (Hq : 1 <= x / 2 ^ lastPlace x).
  { apply Qle_shift_div_l; [exact He | lra]. }
  apply roundHalfEven_ge_1 in Hq. rewrite Zle_Qle in Hq.
  change (inject_Z 1) with 1 in Hq. nra.
Qed.

Lemma fl_neg (x : Q) : x <= - 2 ^ (-1074) -> fl x < 0.
Proof.
  intros H. pose proof (two_pow_pos (-1074)) as H0.
  assert (Hx : x < 0) by lra.
  assert (Habs : Qabs x == - x) by (apply Qabs_neg; lra).
  rewrite fl_value by lra.
  pose proof (two_pow_pos (lastPlace x)) as He.
  assert (Hle : 2 ^ lastPlace x <= - x).
  { rewrite <- Habs. apply lastPlace_le. rewrite Habs. lra. }
  assert (Hq : x / 2 ^ lastPlace x <= -1).
  { apply Qle_shift_div_r; [exact He | lra]. }
  apply roundHalfEven_le_m1 in Hq. rewrite Zle_Qle in Hq.
  change (inject_Z (-1)) with (-1) in Hq. nra.
Qed.

Lemma onGrid_inject_Z (z : Z) : onGrid (inject_Z z).
Proof.
  assert (H : inject_Z 2 ^ 1074 * 2 ^ (-1074) == 1).
  { change (inject_Z 2) with 2. rewrite <- Qpower_plus by discriminate. reflexivity. }
  exists (z * 2 ^ 1074)%Z. rewrite inject_Z_mult, (Zpower_Qpower 2 1074) by lia.
  rewrite <- Qmult_assoc, H. ring.
Qed.

Lemma onGrid_minus (a b : Q) : onGrid a -> onGrid b -> onGrid (a - b).
Proof.
  intros [k Hk] [l Hl]. exists (k - l)%Z. rewrite Hk, Hl.
  unfold Zminus. rewrite inject_Z_plus, inject_Z_opp. ring.
Qed.

Lemma lastPlace_ge (x : Q) : (-1074 <= lastPlace x)%Z.
Proof. unfold lastPlace. lia. Qed.

Lemma onGrid_fl (x : Q) : onGrid (fl x).
Proof.
  destruct (Qeq_dec x 0) as [E | E].
  - exists 0%Z. rewrite (fl_zero x E). ring.
  - pose proof (lastPlace_ge x) as He.
    exists (roundHalfEven (x / 2 ^ lastPlace x) * 2 ^ (lastPlace x + 1074))%Z.
    rewrite (fl_value x E), inject_Z_mult, (Zpower_Qpower 2 (lastPlace x + 1074)) by lia.
    rewrite <- Qmult_assoc, <- Qpower_plus by discriminate.
    replace (lastPlace x + 1074 + -1074)%Z with (lastPlace x) by lia. reflexivity.
Qed.

Lemma onGrid_apart (x : Q) :
  onGrid x -> x == 0 \/ 2 ^ (-1074) <= x \/ x <= - 2 ^ (-1074).
Proof.
  intros [k Hk]. pose proof (two_pow_pos (-1074)) as H0.
  destruct (Z.lt_trichotomy k 0) as [Hlt | [-> | Hgt]].
  - right. right. rewrite Hk.
    assert (Hq : inject_Z k <= -1).
    { change (-1) with (inject_Z (-1)). rewrite <- Zle_Qle. lia. }
    nra.
  - left. rewrite Hk. ring.
  - right. left. rewrite Hk.
    assert (Hq : 1 <= inject_Z k).
    { change 1 with (inject_Z 1). rewrite <- Zle_Qle. lia. }
    nra.
Qed.

(** The rounded difference of two binary64 numbers has the sign of their
    exact difference. *)
Lemma rounded_difference_sign (a b : Q) :
  onGrid a -> onGrid b -> (fl (b - a) ?= 0)%Q = (b - a ?= 0)%Q.
Proof.
  intros Ha Hb. pose proof (two_pow_pos (-1074)) as H0.
  destruct (onGrid_apart (b - a) (onGrid_minus b a Hb Ha)) as [E | [E | E]].
  - rewrite (proj1 (Qeq_alt _ _) E). apply Qeq_alt, fl_zero, E.
  - assert (Hd : 0 < b - a) by lra.
    rewrite (proj1 (Qgt_alt _ _) Hd). apply Qgt_alt, fl_pos, E.
  - assert (Hd : b - a < 0) by lra.
    rewrite (proj1 (Qlt_alt _ _) Hd). apply Qlt_alt, fl_neg, E.
Qed.

(** With preferences every score is a binary64 number. *)
Lemma scoreSpot_onGrid (p : Modal.UserPreferences) (spot : Modal.TouristSpot) (g : Modal.Rng) :
  onGrid (fst (ModalFull.scoreSpot (Some p) spot g)).
Proof.
  unfold ModalFull.scoreSpot; cbn [fst].
  destruct (Modal.rating spot) as [r|]; [destruct (Qeq_bool r 0)|];
    try apply onGrid_inject_Z; apply onGrid_fl.
Qed.

(** On the scores of two spots the comparator of the source, with its
    rounded difference, and the exact comparison agree. *)
Lemma comparator_sign (p : Modal.UserPreferences) (a b : Modal.TouristSpot) (g : Modal.Rng) :
  let A := {| Modal.spot := a; Modal.score := fst (ModalFull.scoreSpot (Some p) a g) |} in
  let B := {| Modal.spot := b; Modal.score := fst (ModalFull.scoreSpot (Some p) b g) |} in
  (fl (Modal.compareFn A B) ?= 0)%Q = (Modal.compareFn A B ?= 0)%Q.
Proof.
  cbv zeta. unfold Modal.compareFn; cbn [Modal.score].
  apply rounded_difference_sign; apply scoreSpot_onGrid.
Qed.

(** Without preferences the scores are the draws, binary64 numbers as
    well. *)
Lemma comparator_sign_of_draws (g : Modal.Rng) (i j : nat) :
  (forall n, onGrid (Modal.draws g n)) ->
  (fl (Modal.draws g j - Modal.draws g i) ?= 0)%Q
  = (Modal.draws g j - Modal.draws g i ?= 0)%Q.
Proof. intros H. apply rounded_difference_sign; apply H. Qed.

(** Binary64 values against the decimals that name them. *)
Example binary64_values :
  fl (43 # 10) == 4841369599423283 # 1125899906842624
  /\ fl (1 # 10) == 3602879701896397 # 36028797018963968
  /\ fl (3 * 2 ^ (-1075)) == 2 * 2 ^ (-1074)
  /\ fl (2 ^ (-1075)) == 0
  /\ fl (inject_Z (2 ^ 53 + 1)) == inject_Z (2 ^ 53).
Proof. repeat split; vm_compute; reflexivity. Qed.

End Binary64Facts.
